(** * Saliency-map generation of the brain-tumour classifier (app.py)

    A shallow embedding of [generate_saliency_map] and of the part of
    [display_tab_content] that calls it.

    Conventions of the embedding:
    - a 2-D numpy array is a list of rows ([grid]); its [shape] is
      (rows, columns), as numpy reports it;
    - floating-point values are idealised as exact rationals ([Qc]); a
      zero denominator is a fault, so that the guard before the min-max
      normalisation is visible in the model;
    - [np.uint8] values are bytes; the cast from a float truncates
      towards zero and wraps modulo 256;
    - TensorFlow, OpenCV, PIL and the operating system are external: the
      functions taken from them are the fields of [Libs] and [Host]. *)

From Stdlib Require Import ZArith QArith Qcanon Qround Lia Lqa.
From Stdlib Require Import Ascii.
From Stdlib Require Strings.Byte.
From stdpp Require Import gmap strings list numbers sorting pretty.

Set Default Proof Using "Type".
Local Open Scope Z_scope.

(** ** Exceptions and results *)

Inductive exn : Type :=
  | ValueError          (* numpy: reduction of an empty array, shapes that do not broadcast *)
  | ZeroDivisionError   (* a division whose denominator is zero *)
  | OSError             (* open(path, "wb") or write failed *)
  | cv2_error.          (* OpenCV raised, e.g. no writer for the extension *)

Inductive result (A : Type) : Type :=
  | Ok (a : A)
  | Raise (e : exn).
Arguments Ok {A} a.
Arguments Raise {A} e.

Global Instance result_ret : MRet result := fun _ a => Ok a.
Global Instance result_bind : MBind result := fun _ _ k m =>
  match m with
  | Ok a => k a
  | Raise e => Raise e
  end.
Global Instance result_fmap : FMap result := fun _ _ f m =>
  match m with
  | Ok a => Ok (f a)
  | Raise e => Raise e
  end.

Global Instance exn_eq_dec : EqDecision exn.
Proof. solve_decision. Defined.
Global Instance result_eq_dec {A} `{EqDecision A} : EqDecision (result A).
Proof. solve_decision. Defined.

Fixpoint mapM_result {A B} (f : A -> result B) (l : list A) : result (list B) :=
  match l with
  | [] => Ok []
  | a :: l' => b ← f a; bs ← mapM_result f l'; Ok (b :: bs)
  end.

(** ** Arrays *)

Abbreviation grid A := (list (list A)).

(** [a.shape] of a 2-D array: (rows, columns). *)
Definition shape {A} (g : grid A) : nat * nat :=
  (length g, length (default [] (head g))).

(** Every row has [w] entries and there are [h] rows. *)
Definition has_shape {A} (h w : nat) (g : grid A) : Prop :=
  length g = h /\ Forall (fun row => length row = w) g.

Global Instance has_shape_dec {A} (h w : nat) (g : grid A) :
  Decision (has_shape h w g).
Proof. unfold has_shape. apply _. Defined.

(** [a[y, x]]. *)
Definition at2 {A} (g : grid A) (y x : nat) : option A :=
  row ← g !! y; row !! x.

(** ** The circular mask (lines 83-87)

<<
    center = (gradients.shape[0] // 2, gradients.shape[1] // 2)
    radius = min(center[0], center[1]) - 10
    y, x = np.ogrid[:gradients.shape[0], :gradients.shape[1]]
    mask = (x - center[0])**2 + (y - center[1])**2 <= radius**2
>>
    [y] runs over the row indices and [x] over the column indices. *)

Definition center (shp : nat * nat) : Z * Z :=
  (Z.of_nat shp.1 / 2, Z.of_nat shp.2 / 2).

Definition radius (c : Z * Z) : Z := Z.min c.1 c.2 - 10.

Definition mask_at (shp : nat * nat) (y x : nat) : bool :=
  let c := center shp in
  (Z.of_nat x - c.1) ^ 2 + (Z.of_nat y - c.2) ^ 2 <=? radius c ^ 2.

Definition circular_mask (shp : nat * nat) : grid bool :=
  map (fun y => map (fun x => mask_at shp y x) (seq 0 shp.2)) (seq 0 shp.1).

(** The mask the specification describes: a disc whose centre is the
    centre of the map, so the column index is compared with the column
    centre and the row index with the row centre. *)
Definition centered_mask_at (shp : nat * nat) (y x : nat) : bool :=
  let c := center shp in
  (Z.of_nat x - c.2) ^ 2 + (Z.of_nat y - c.1) ^ 2 <=? radius c ^ 2.

Definition centered_mask (shp : nat * nat) : grid bool :=
  map (fun y => map (fun x => centered_mask_at shp y x) (seq 0 shp.2))
      (seq 0 shp.1).

(** The centre pixel of a map: row [rows // 2], column [cols // 2]. *)
Definition center_pixel (shp : nat * nat) : nat * nat :=
  (shp.1 / 2, shp.2 / 2)%nat.

(** ** Numbers *)

Definition Qc_of_Z (z : Z) : Qc := Q2Qc (inject_Z z).

Definition Qc_max (a b : Qc) : Qc := if decide (a ≤ b)%Qc then b else a.
Definition Qc_min (a b : Qc) : Qc := if decide (a ≤ b)%Qc then a else b.
Definition Qc_abs (a : Qc) : Qc := if decide (0 ≤ a)%Qc then a else (- a)%Qc.

(** Rounding towards zero, the float-to-integer conversion of a C cast. *)
Definition Qc_trunc (q : Qc) : Z :=
  if decide (0 ≤ q)%Qc then Qfloor q else Qceiling q.

Abbreviation byte := Byte.byte.
Global Instance byte_eq_dec : EqDecision byte := Byte.byte_eq_dec.

Definition Z_of_byte (b : byte) : Z := Z.of_N (Byte.to_N b).
Definition byte_of_Z (z : Z) : byte :=
  default Byte.x00 (Byte.of_N (Z.to_N (z mod 256))).
Definition Qc_of_byte (b : byte) : Qc := Qc_of_Z (Z_of_byte b).

(** [np.uint8(v)] and [a.astype(np.uint8)] on one float. *)
Definition np_uint8 (q : Qc) : byte := byte_of_Z (Qc_trunc q).

(** [np.clip(v, lo, hi)], which the specification applies before the cast. *)
Definition np_clip (v lo hi : Qc) : Qc := Qc_min (Qc_max v lo) hi.

(** [a / b] on floats. *)
Definition np_true_divide (a b : Qc) : result Qc :=
  if decide (b = 0%Qc) then Raise ZeroDivisionError else Ok (a / b)%Qc.

(** [a.max()] and [a.min()]: numpy raises ValueError on an empty array. *)
Definition np_max (l : list Qc) : result Qc :=
  match l with
  | [] => Raise ValueError
  | v :: l' => Ok (foldr Qc_max v l')
  end.

Definition np_min (l : list Qc) : result Qc :=
  match l with
  | [] => Raise ValueError
  | v :: l' => Ok (foldr Qc_min v l')
  end.

(** ** Pixels *)

(** Three [uint8] channels, and three float channels. *)
Abbreviation px8 := (byte * byte * byte)%type.
Abbreviation pxf := (Qc * Qc * Qc)%type.

Definition px_map {A B} (f : A -> B) (p : A * A * A) : B * B * B :=
  (f p.1.1, f p.1.2, f p.2).

Definition px_zip {A B C} (f : A -> B -> C) (p : A * A * A) (q : B * B * B)
  : C * C * C :=
  (f p.1.1 q.1.1, f p.1.2 q.1.2, f p.2 q.2).

(** [cv2.cvtColor(_, COLOR_BGR2RGB)] and [COLOR_RGB2BGR]: the first and
    the third channel change places. *)
Definition swap_rb {A} (p : A * A * A) : A * A * A := (p.2, p.1.2, p.1.1).
Definition cvtColor_BGR2RGB (a : grid px8) : grid px8 := map (map swap_rb) a.
Definition cvtColor_RGB2BGR (a : grid px8) : grid px8 := map (map swap_rb) a.

(** The three channels of a float pixel lie between 0 and 255. *)
Definition px_in_range (p : pxf) : Prop :=
  ((0 <= p.1.1)%Qc /\ (p.1.1 <= Qc_of_Z 255)%Qc) /\
  ((0 <= p.1.2)%Qc /\ (p.1.2 <= Qc_of_Z 255)%Qc) /\
  ((0 <= p.2)%Qc /\ (p.2 <= Qc_of_Z 255)%Qc).

(** [image.img_to_array(img)]: the 8-bit channels as floats. *)
Definition img_to_array (img : grid px8) : grid pxf :=
  map (map (px_map Qc_of_byte)) img.

(** ** Masked selection and assignment *)

(** [gradients * mask]: a boolean counts as 0 or 1. *)
Definition apply_mask (g : grid Qc) (m : grid bool) : grid Qc :=
  zip_with (zip_with (fun v (b : bool) => if b then v else 0%Qc)) g m.

(** [a[mask]]: the selected entries in row-major order. *)
Fixpoint select_row {A} (row : list A) (mrow : list bool) : list A :=
  match row, mrow with
  | v :: row', b :: mrow' =>
      if b then v :: select_row row' mrow' else select_row row' mrow'
  | _, _ => []
  end.

Definition select {A} (g : grid A) (m : grid bool) : list A :=
  concat (zip_with select_row g m).

(** [a[mask] = vals]: the selected entries are replaced, in row-major
    order, by the values; the function returns the values left over.
    In the source the values come from [a[mask]] itself, so there are
    exactly as many values as selected entries. *)
Fixpoint assign_row {A} (row : list A) (mrow : list bool) (vals : list A)
  : list A * list A :=
  match row, mrow with
  | v :: row', b :: mrow' =>
      if b then
        match vals with
        | x :: vals' =>
            let '(r, rest) := assign_row row' mrow' vals' in (x :: r, rest)
        | [] => (row, [])
        end
      else
        let '(r, rest) := assign_row row' mrow' vals in (v :: r, rest)
  | _, _ => (row, vals)
  end.

Fixpoint assign {A} (g : grid A) (m : grid bool) (vals : list A) : grid A :=
  match g, m with
  | row :: g', mrow :: m' =>
      let '(r, rest) := assign_row row mrow vals in r :: assign g' m' rest
  | _, _ => g
  end.

(** ** Normalisation of the brain area (lines 92-96)

<<
    brain_gradients = gradients[mask]
    if brain_gradients.max() > brain_gradients.min():
        brain_gradients = (brain_gradients - brain_gradients.min())
                          / (brain_gradients.max() - brain_gradients.min())
    gradients[mask] = brain_gradients
>> *)

(** The value the division yields when its denominator is not zero. *)
Definition rescale (mn mx v : Qc) : Qc := ((v - mn) / (mx - mn))%Qc.

Definition normalize_values (brain_gradients : list Qc) : result (list Qc) :=
  mx ← np_max brain_gradients;
  mn ← np_min brain_gradients;
  if decide (mn < mx)%Qc then
    mapM_result (fun v => np_true_divide (v - mn)%Qc (mx - mn)%Qc) brain_gradients
  else Ok brain_gradients.

Definition normalize_brain (gradients : grid Qc) (mask : grid bool)
  : result (grid Qc) :=
  brain_gradients ← normalize_values (select gradients mask);
  Ok (assign gradients mask brain_gradients).

(** ** The percentile threshold (lines 98-100)

    [np.percentile(a, q)] with the default linear interpolation: the
    sorted values are read at the virtual index [q/100 * (n - 1)]. *)

Definition np_percentile (a : list Qc) (q : Z) : result Qc :=
  match a with
  | [] => Raise ValueError
  | _ =>
      let sorted := merge_sort Qcle a in
      let n := length a in
      let virtual_index := (Qc_of_Z q / Qc_of_Z 100 * Qc_of_Z (Z.of_nat n - 1))%Qc in
      let previous := Z.to_nat (Qfloor virtual_index) in
      let next := Nat.min (previous + 1) (n - 1) in
      let gamma := (virtual_index - Qc_of_Z (Z.of_nat previous))%Qc in
      let lo := nth previous sorted 0%Qc in
      let hi := nth next sorted 0%Qc in
      Ok (lo + (hi - lo) * gamma)%Qc
  end.

(** [gradients[gradients < threshold] = 0]. *)
Definition zero_below (threshold : Qc) (gradients : grid Qc) : grid Qc :=
  map (map (fun v => if decide (v < threshold)%Qc then 0%Qc else v)) gradients.

(** ** External collaborators *)

(** The classifier: "accepts a batched image tensor, returns per-class
    scores, and supports gradient computation of an output score with
    respect to its input tensor".  The batch axis has length one
    ([np.expand_dims] on line 179) and is left implicit: the input tensor
    is a height x width grid of three-channel pixels.
    [input_gradient t k] is [tape.gradient(model(t)[:, k], t)] of lines
    69-75; it has the shape of [t].  Both fields are total: the errors
    TensorFlow raises for a tensor the model does not accept or for a
    class index outside the scores are not part of the model. *)
Record Classifier : Type := {
  predict : grid pxf -> list Qc;
  input_gradient : grid pxf -> nat -> grid pxf;
}.

(** OpenCV and PIL.  Sizes are (width, height) pairs, as both libraries
    take them. *)
Record Libs : Type := {
  (* cv2.resize on a single-channel float array *)
  cv2_resize : grid Qc -> nat * nat -> grid Qc;
  (* cv2.resize on a three-channel uint8 array *)
  cv2_resize_u8 : grid px8 -> nat * nat -> grid px8;
  (* cv2.GaussianBlur(src, ksize, sigmaX) *)
  cv2_GaussianBlur : grid Qc -> nat * nat -> Qc -> grid Qc;
  (* the lookup table of cv2.COLORMAP_JET, blue channel first *)
  COLORMAP_JET : byte -> px8;
  (* the image encoder cv2.imwrite picks from the file name's extension;
     None when OpenCV has no writer for it *)
  imencode : string -> grid px8 -> option (list byte);
  (* PIL.Image.open followed by the conversion to RGB *)
  PIL_open : list byte -> result (grid px8);
  (* Image.resize *)
  PIL_resize : grid px8 -> nat * nat -> grid px8;
}.

(** What the embedding relies on about them: the shapes they return. *)
Record LibsOk (L : Libs) : Prop := {
  cv2_resize_shape :
    forall g w h, has_shape h w (cv2_resize L g (w, h));
  cv2_resize_u8_shape :
    forall a w h, has_shape h w (cv2_resize_u8 L a (w, h));
  cv2_GaussianBlur_shape :
    forall g k s h w, has_shape h w g -> has_shape h w (cv2_GaussianBlur L g k s);
  PIL_resize_shape :
    forall im w h, has_shape h w (PIL_resize L im (w, h));
}.

(** The operating system, as far as the two writes can observe it. *)
Record Host : Type := {
  (* open(path, "wb") and the write succeed *)
  open_wb_ok : string -> bool;
  (* OpenCV can create and fill the file *)
  imwrite_io_ok : string -> bool;
}.

(** The files on disk: path to contents. *)
Abbreviation files := (gmap string (list byte)).

(** Streamlit's UploadedFile. *)
Record UploadedFile : Type := {
  name : string;
  getbuffer : list byte;
}.

(** ** The gradient map (lines 69-81) *)

(** [tf.math.abs] and [tf.reduce_max(_, axis=-1)], then [squeeze], which
    drops the batch axis. *)
Definition tf_abs (t : grid pxf) : grid pxf := map (map (px_map Qc_abs)) t.

Definition tf_reduce_max (t : grid pxf) : grid Qc :=
  map (map (fun p : pxf => Qc_max (Qc_max p.1.1 p.1.2) p.2)) t.

Definition gradient_map (L : Libs) (model : Classifier) (img_array : grid pxf)
    (class_index : nat) (img_size : nat * nat) : grid Qc :=
  let gradients := input_gradient model img_array class_index in
  let gradients := tf_abs gradients in
  let gradients := tf_reduce_max gradients in
  cv2_resize L gradients img_size.

(** ** Masking, normalisation and threshold (lines 83-100) *)

Definition masked_map (gradients : grid Qc) : grid Qc :=
  apply_mask gradients (circular_mask (shape gradients)).

Definition sharpen (gradients : grid Qc) : result (grid Qc) :=
  let mask := circular_mask (shape gradients) in
  let gradients := apply_mask gradients mask in
  gradients ← normalize_brain gradients mask;
  threshold ← np_percentile (select gradients mask) 80;
  Ok (zero_below threshold gradients).

(** ** Heat map and blend (lines 102-114) *)

Definition heatmap_of (L : Libs) (gradients : grid Qc) (img_size : nat * nat)
  : grid px8 :=
  let gradients := cv2_GaussianBlur L gradients (11, 11)%nat 0%Qc in
  let scaled := map (map (fun v => np_uint8 (Qc_of_Z 255 * v)%Qc)) gradients in
  let heatmap := map (map (COLORMAP_JET L)) scaled in
  let heatmap := cvtColor_BGR2RGB heatmap in
  cv2_resize_u8 L heatmap img_size.

(** numpy broadcasting of two (rows, columns, 3) arrays: along an axis
    the lengths agree or one of them is 1. *)
Definition broadcast_dim (a b : nat) : option nat :=
  if decide (a = b) then Some a
  else if decide (a = 1%nat) then Some b
  else if decide (b = 1%nat) then Some a
  else None.

Definition bidx (dim i : nat) : nat := if decide (dim = 1%nat) then 0%nat else i.

Definition at2_bc {A} (d : A) (a : grid A) (y x : nat) : A :=
  default d (at2 a (bidx (shape a).1 y) (bidx (shape a).2 x)).

Definition np_broadcast2 {A B C} (f : A -> B -> C) (da : A) (db : B)
    (a : grid A) (b : grid B) : result (grid C) :=
  match broadcast_dim (shape a).1 (shape b).1,
        broadcast_dim (shape a).2 (shape b).2 with
  | Some h, Some w =>
      Ok (map (fun y => map (fun x => f (at2_bc da a y x) (at2_bc db b y x))
                            (seq 0 w)) (seq 0 h))
  | _, _ => Raise ValueError
  end.

(** One channel of [heatmap * 0.7 + original_img * 0.3], as the exact
    weighted sum.  (In floating point the sum can fall just short of an
    integer that the exact sum reaches, and the cast then gives the byte
    below.) *)
Definition blend_channel (h : byte) (o : Qc) : Qc :=
  (Qc_of_byte h * Q2Qc (7 # 10) + o * Q2Qc (3 # 10))%Qc.

(** [(heatmap * 0.7 + original_img * 0.3).astype(np.uint8)]. *)
Definition superimpose (heatmap : grid px8) (original_img : grid pxf)
  : result (grid px8) :=
  superimposed_img ←
    np_broadcast2 (px_zip blend_channel)
      (Byte.x00, Byte.x00, Byte.x00) (0%Qc, 0%Qc, 0%Qc) heatmap original_img;
  Ok (map (map (px_map np_uint8)) superimposed_img).

(** Lines 69-114: everything up to the two writes. *)
Definition saliency_overlay (L : Libs) (model : Classifier) (img : grid px8)
    (img_array : grid pxf) (class_index : nat) (img_size : nat * nat)
  : result (grid px8) :=
  let gradients := gradient_map L model img_array class_index img_size in
  gradients ← sharpen gradients;
  let heatmap := heatmap_of L gradients img_size in
  let original_img := img_to_array img in
  superimpose heatmap original_img.

(** ** The two writes (lines 116-123) *)

Definition output_dir : string := "saliency_maps".

(** [os.path.join(a, b)] on POSIX. *)
Definition starts_with_slash (s : string) : bool :=
  match s with
  | String c _ => if decide (c = "/"%char) then true else false
  | EmptyString => false
  end.

Fixpoint ends_with_slash (s : string) : bool :=
  match s with
  | EmptyString => false
  | String c EmptyString => if decide (c = "/"%char) then true else false
  | String _ s' => ends_with_slash s'
  end.

Definition os_path_join (a b : string) : string :=
  if starts_with_slash b then b
  else if decide (a = "") then b
  else if ends_with_slash a then a +:+ b
  else a +:+ "/" +:+ b.

(** [with open(path, "wb") as f: f.write(data)]. *)
Definition open_write (H : Host) (path : string) (data : list byte)
    (fs : files) : result files :=
  if open_wb_ok H path then Ok (<[path := data]> fs) else Raise OSError.

(** [cv2.imwrite(path, img)]: raises when no encoder fits the extension,
    returns False when the file cannot be written, True otherwise.  On
    False the model leaves the disk as it was; OpenCV itself does not
    say what a failed write leaves behind. *)
Definition cv2_imwrite (L : Libs) (H : Host) (path : string) (img : grid px8)
    (fs : files) : result (bool * files) :=
  match imencode L path img with
  | None => Raise cv2_error
  | Some data =>
      if imwrite_io_ok H path then Ok (true, <[path := data]> fs)
      else Ok (false, fs)
  end.

(** ** generate_saliency_map (lines 68-125) *)

Definition generate_saliency_map (L : Libs) (H : Host) (model : Classifier)
    (img : grid px8) (img_array : grid pxf) (class_index : nat)
    (img_size : nat * nat) (uploaded_file : UploadedFile) (fs : files)
  : result (grid px8 * files) :=
  superimposed_img ← saliency_overlay L model img img_array class_index img_size;
  let img_path := os_path_join output_dir (name uploaded_file) in
  fs ← open_write H img_path (getbuffer uploaded_file) fs;
  let saliency_map_path := "saliency_maps/" +:+ name uploaded_file in
  written ← cv2_imwrite L H saliency_map_path
              (cvtColor_RGB2BGR superimposed_img) fs;
  Ok (superimposed_img, written.2).

(** ** The caller (lines 166-191 of display_tab_content) *)

Inductive selected_model : Type :=
  | Transfer_Learning_Xception
  | Custom_CNN.

Definition img_size_of (sel : selected_model) : nat * nat :=
  match sel with
  | Transfer_Learning_Xception => (299, 299)%nat
  | Custom_CNN => (224, 224)%nat
  end.

(** [image.load_img(file, target_size=(height, width))]: the decoded
    image is resized unless it already has the target size. *)
Definition load_img (L : Libs) (data : list byte) (target_size : nat * nat)
  : result (grid px8) :=
  img ← PIL_open L data;
  let width_height_tuple := (target_size.2, target_size.1) in
  let img_size := ((shape img).2, (shape img).1) in
  if decide (img_size = width_height_tuple) then Ok img
  else Ok (PIL_resize L img width_height_tuple).

(** [np.argmax]: the first index of the largest entry. *)
Fixpoint np_argmax_from (best : Qc) (best_i i : nat) (l : list Qc) : nat :=
  match l with
  | [] => best_i
  | v :: l' =>
      if decide (best < v)%Qc then np_argmax_from v i (S i) l'
      else np_argmax_from best best_i (S i) l'
  end.

Definition np_argmax (l : list Qc) : nat :=
  match l with
  | [] => 0%nat
  | v :: l' => np_argmax_from v 0%nat 1%nat l'
  end.

Definition labels : list string := ["Glioma"; "Meningioma"; "No tumor"; "Pituitary"].

(** The classification of one upload and its saliency map.  [xception]
    and [cnn] are the two models the weight files hold. *)
Definition display_tab_content (L : Libs) (H : Host) (xception cnn : Classifier)
    (uploaded_file : UploadedFile) (sel : selected_model) (fs : files)
  : result (grid px8 * files) :=
  let model := match sel with
               | Transfer_Learning_Xception => xception
               | Custom_CNN => cnn
               end in
  let img_size := img_size_of sel in
  img ← load_img L (getbuffer uploaded_file) img_size;
  let img_array :=
    map (map (px_map (fun v => (v / Qc_of_Z 255)%Qc))) (img_to_array img) in
  let prediction := predict model img_array in
  let class_index := np_argmax prediction in
  generate_saliency_map L H model img img_array class_index img_size
    uploaded_file fs.

(** The tail of [generate_saliency_map]: the two writes and the return
    (lines 116-125), named so that statements can speak of it. *)
Definition persist (L : Libs) (H : Host) (uploaded_file : UploadedFile)
    (superimposed_img : grid px8) (fs : files) : result (grid px8 * files) :=
  let img_path := os_path_join output_dir (name uploaded_file) in
  fs ← open_write H img_path (getbuffer uploaded_file) fs;
  let saliency_map_path := "saliency_maps/" +:+ name uploaded_file in
  written ← cv2_imwrite L H saliency_map_path
              (cvtColor_RGB2BGR superimposed_img) fs;
  Ok (superimposed_img, written.2).

(** ** The generative service and the page (lines 24-66 and 162-218) *)

(** The input tensor of lines 178-179: the channels divided by 255. *)
Definition preprocess (img : grid px8) : grid pxf :=
  map (map (px_map (fun v => (v / Qc_of_Z 255)%Qc))) (img_to_array img).

(** The generative service, PIL and the formatting of floats. *)
Record Services : Type := {
  (* PIL.Image.open on the bytes of a file *)
  Image_open : list byte -> result (grid px8);
  (* GenerativeModel(model_name).generate_content([prompt, img]).text;
     None when the call raises *)
  generate_content : string -> string -> grid px8 -> option string;
  (* the text of a float inside an f-string *)
  py_str_float : Qc -> string;
  (* the text of a float under the format .4f *)
  py_format_4f : Qc -> string;
}.

(** What can end a page run: an exception of the engine or of numpy,
    an index out of range, or a failure of the generative service. *)
Inductive tab_exn : Type :=
  | raised (e : exn)
  | IndexError
  | genai_error.

Inductive tab_result (A : Type) : Type :=
  | Return (a : A)
  | Throw (e : tab_exn).
Arguments Return {A} a.
Arguments Throw {A} e.

Definition dquote : string := String (ascii_of_nat 34) EmptyString.

(** The f-string of lines 25-42. *)
Definition explanation_prompt (model_prediction confidence_percent : string)
  : string :=
  "
    You are an expert neurologist interpreting a saliency map for a brain MRI scan, generated by a deep learning model trained to classify brain tumors into categories: glioma, meningioma, pituitary, or no tumor.

    The model predicted the scan to be of class '"
  +:+ model_prediction
  +:+ "' with a confidence level of "
  +:+ confidence_percent
  +:+ "%.

    Context for response:
    - Describe specific regions of the brain highlighted in light cyan where the model focused to arrive at this prediction.
      For example, reference specific lobes, sulci, or anatomical structures if they appear relevant.
    - Discuss how the highlighted regions correlate with typical tumor presentation of the predicted class. For instance,
      explain if the distribution, shape, or spread of these highlighted areas aligns with known patterns for "
  +:+ model_prediction
  +:+ ".
    - Provide insights into the reasoning process, considering the neural features that might influence the model's focus.
      For example, mention if it’s emphasizing regions of abnormal density, asymmetry, or unusual boundaries that are often seen in "
  +:+ model_prediction
  +:+ " cases.
    - Avoid generic statements, and aim to make each sentence contribute a unique insight into why the model likely made this prediction
      based on the observed highlights.
    - Maintain clarity and precision in describing the anatomical and functional relevance of the model’s focus points on the MRI scan.

    Based on the above context, answer the following question from the user in a detailed yet concise manner.
    ".

(** The f-string of lines 50-64. *)
Definition chat_prompt (model_prediction confidence_percent user_query : string)
  : string :=
  "
    You are an expert neurologist interpreting a saliency map for a brain MRI scan, generated by a deep learning model trained to classify brain tumors into categories: glioma, meningioma, pituitary, or no tumor.

    The model has classified this MRI scan as '"
  +:+ model_prediction
  +:+ "' with a confidence level of "
  +:+ confidence_percent
  +:+ "%.

    When responding, please:
    - Answer questions directly based on the provided MRI scan classification and the highlighted regions in the saliency map.
    - Focus on explaining why the model might have classified the tumor as "
  +:+ model_prediction
  +:+ ", including anatomical and structural details relevant to this tumor type.
    - Describe any relevant characteristics of the "
  +:+ model_prediction
  +:+ " tumor type, such as typical regions affected, common shapes, or patterns in MRI imaging.
    - Avoid disclaimers about being an AI and instead focus on providing educational information relevant to this classification.

    Now, based on the model's classification and the saliency map, answer the following user question:

    "
  +:+ dquote
  +:+ user_query
  +:+ dquote
  +:+ "
    ".

(** The call [model.generate_content([prompt, img])] and [response.text]. *)
Definition ask (S : Services) (model_name prompt : string) (img : grid px8)
  : tab_result string :=
  match generate_content S model_name prompt img with
  | Some text => Return text
  | None => Throw genai_error
  end.

(** generate_explanation (lines 24-46): the image is read from the disk
    at [img_path]. *)
Definition generate_explanation (S : Services) (fs : files)
    (img_path model_prediction : string) (confidence : Qc) : tab_result string :=
  let prompt :=
    explanation_prompt model_prediction
      (py_str_float S (confidence * Qc_of_Z 100)%Qc) in
  match fs !! img_path with
  | None => Throw (raised OSError)
  | Some data =>
      match Image_open S data with
      | Raise e => Throw (raised e)
      | Ok img => ask S "gemini-1.5-flash" prompt img
      end
  end.

(** generate_neurology_chat_response (lines 49-66); [model] is the name
    the generative model was made with. *)
Definition generate_neurology_chat_response (S : Services) (model : string)
    (img : grid px8) (user_query model_prediction : string) (confidence : Qc)
  : tab_result string :=
  let prompt :=
    chat_prompt model_prediction
      (py_str_float S (confidence * Qc_of_Z 100)%Qc) user_query in
  ask S model prompt img.

(** What the page has rendered: Streamlit renders each element when the
    call is made, so what was rendered before an exception stays. *)
Inductive st_event : Type :=
  | st_write (text : string)
  | st_image_file (file : UploadedFile) (caption : string)
  | st_image_array (array : grid px8) (caption : string).

Inductive tab_outcome : Type :=
  | Rendered (shown : list st_event) (fs : files)
  | Crashed (shown : list st_event) (e : tab_exn).

Definition shown_of (o : tab_outcome) : list st_event :=
  match o with
  | Rendered shown _ => shown
  | Crashed shown _ => shown
  end.

(** display_tab_content (lines 162-218).  The widgets hand in the
    uploaded file (if any), the selected model and the question. *)
Definition display_tab_content_page (L : Libs) (S : Services) (H : Host)
    (xception cnn : Classifier) (uploaded_file : option UploadedFile)
    (sel : selected_model) (user_query : string) (fs : files) : tab_outcome :=
  let shown :=
    [st_write "Upload an image of a brain MRI to classify the tumor type."] in
  match uploaded_file with
  | None => Rendered shown fs
  | Some uploaded_file =>
  let model := match sel with
               | Transfer_Learning_Xception => xception
               | Custom_CNN => cnn
               end in
  let img_size := img_size_of sel in
  match load_img L (getbuffer uploaded_file) img_size with
  | Raise e => Crashed shown (raised e)
  | Ok img =>
  let img_array := preprocess img in
  let prediction := predict model img_array in
  match prediction with
  | [] => Crashed shown (raised ValueError)
  | _ =>
  let class_index := np_argmax prediction in
  match labels !! class_index with
  | None => Crashed shown IndexError
  | Some result =>
  let shown :=
    shown ++ [st_write ("Predicted Class: " +:+ result); st_write "Predictions"]
          ++ zip_with (fun label prob =>
                         st_write (label +:+ ": " +:+ py_format_4f S prob))
               labels prediction in
  match generate_saliency_map L H model img img_array class_index img_size
          uploaded_file fs with
  | Raise e => Crashed shown (raised e)
  | Ok (saliency_map, fs) =>
  let shown :=
    shown ++ [st_image_file uploaded_file "Uploaded Image";
              st_image_array saliency_map "Saliency Map"] in
  let saliency_map_path := "saliency_maps/" +:+ name uploaded_file in
  match prediction !! class_index with
  | None => Crashed shown IndexError
  | Some confidence =>
  match generate_explanation S fs saliency_map_path result confidence with
  | Throw e => Crashed shown e
  | Return explanation =>
  let shown :=
    shown ++ [st_write "### Explanation"; st_write explanation;
              st_write "### Chat with the MRI Image";
              st_write "Ask questions about the MRI scan to the multimodal LLM."] in
  if decide (user_query = EmptyString) then Rendered shown fs
  else
    match generate_neurology_chat_response S "gemini-1.5-flash" img
            user_query result confidence with
    | Throw e => Crashed shown e
    | Return response_text =>
        Rendered (shown ++ [st_write "### Model's Response:";
                            st_write response_text]) fs
    end
  end end end end end end end.

(** ** Concrete collaborators

    Simple stand-ins for the external libraries, used to run the
    embedding on concrete inputs. *)

Module Concrete.

(** Nearest-neighbour resize to [dsize = (width, height)]. *)
Definition resize_nearest {A} (d : A) (a : grid A) (dsize : nat * nat)
  : grid A :=
  let rows := (shape a).1 in
  let cols := (shape a).2 in
  map (fun y => map (fun x =>
         default d (at2 a (y * rows / dsize.2)%nat (x * cols / dsize.1)%nat))
       (seq 0 dsize.1)) (seq 0 dsize.2).

(** Mean over the part of the [ksize] window that lies inside the
    array. *)
Definition window (i r n : nat) : list nat :=
  seq (i - r) (Nat.min (i + r + 1) n - (i - r)).

Definition box_blur (g : grid Qc) (ksize : nat * nat) (sigma : Qc)
  : grid Qc :=
  let rows := (shape g).1 in
  let cols := (shape g).2 in
  map (fun y => map (fun x =>
         let ys := window y (ksize.2 / 2) rows in
         let xs := window x (ksize.1 / 2) cols in
         let vals := y' ← ys; x' ← xs; [default 0%Qc (at2 g y' x')] in
         (foldr Qcplus 0%Qc vals / Qc_of_Z (Z.of_nat (length vals)))%Qc)
       (seq 0 cols)) (seq 0 rows).

(** A piecewise-linear jet scale, blue first: dark blue at 0, dark red
    at 255. *)
Definition jet_channel (v k : Z) : byte :=
  byte_of_Z (Z.max 0 (Z.min 255 (382 - Z.abs (4 * v - k * 255)))).

Definition jet (b : byte) : px8 :=
  let v := Z_of_byte b in
  (jet_channel v 1, jet_channel v 2, jet_channel v 3).

Definition ends_with (suffix s : string) : bool :=
  String.prefix (String.rev suffix) (String.rev s).

(** An encoder exists for the three extensions the uploader accepts;
    the file holds the two dimensions and then the raw channels. *)
Definition encode (path : string) (img : grid px8) : option (list byte) :=
  if ends_with ".png" path || ends_with ".jpg" path || ends_with ".jpeg" path
  then Some (byte_of_Z (Z.of_nat (shape img).1)
             :: byte_of_Z (Z.of_nat (shape img).2)
             :: (p ← concat img; [p.1.1; p.1.2; p.2]))
  else None.

(** A decoder: two bytes of width, two bytes of height, one grey level
    for the whole picture. *)
Definition decode (data : list byte) : result (grid px8) :=
  match data with
  | [wh; wl; hh; hl; v] =>
      let w := Z.to_nat (256 * Z_of_byte wh + Z_of_byte wl) in
      let h := Z.to_nat (256 * Z_of_byte hh + Z_of_byte hl) in
      Ok (replicate h (replicate w (v, v, v)))
  | _ => Raise OSError
  end.

Definition libs : Libs := {|
  cv2_resize := resize_nearest 0%Qc;
  cv2_resize_u8 := resize_nearest (Byte.x00, Byte.x00, Byte.x00);
  cv2_GaussianBlur := box_blur;
  COLORMAP_JET := jet;
  imencode := encode;
  PIL_open := decode;
  PIL_resize := resize_nearest (Byte.x00, Byte.x00, Byte.x00);
|}.

(** A host on which every write succeeds, and one on which none does. *)
Definition host_ok : Host :=
  {| open_wb_ok := fun _ => true; imwrite_io_ok := fun _ => true |}.
Definition host_read_only : Host :=
  {| open_wb_ok := fun _ => false; imwrite_io_ok := fun _ => false |}.
(** A host on which Python can write but OpenCV cannot. *)
Definition host_cv_fails : Host :=
  {| open_wb_ok := fun _ => true; imwrite_io_ok := fun _ => false |}.

(** Classifiers.  [flat_model c] has the same gradient [c] at every
    input element; [ramp_model] has a gradient that grows along the
    rows and the columns; [spot_model y0 x0] has gradient 1 everywhere
    but at the pixel in row [y0] and column [x0], where it is 0. *)
Definition scores : list Qc :=
  [Q2Qc (87 # 100); Q2Qc (5 # 100); Q2Qc (5 # 100); Q2Qc (3 # 100)].

Definition flat_model (c : Qc) : Classifier := {|
  predict := fun _ => scores;
  input_gradient := fun t _ => map (map (fun _ => (c, c, c))) t;
|}.

Definition ramp_model : Classifier := {|
  predict := fun _ => scores;
  input_gradient := fun t _ =>
    imap (fun y row => imap (fun x _ =>
      let v := Qc_of_Z (Z.of_nat (y * length row + x)) in
      (v, (- v)%Qc, 0%Qc)) row) t;
|}.

Definition spot_model (y0 x0 : nat) : Classifier := {|
  predict := fun _ => scores;
  input_gradient := fun t _ =>
    imap (fun y row => imap (fun x _ =>
      if decide (y = y0 /\ x = x0) then (0%Qc, 0%Qc, 0%Qc)
      else (1%Qc, 1%Qc, 1%Qc)) row) t;
|}.

(** A grid of [rows] x [cols] copies of one value. *)
Definition uniform {A} (rows cols : nat) (v : A) : grid A :=
  replicate rows (replicate cols v).

(** An upload that [decode] reads as a [w] x [h] picture of grey [v]. *)
Definition upload (file_name : string) (w h : Z) (v : byte) : UploadedFile := {|
  name := file_name;
  getbuffer := [byte_of_Z (w / 256); byte_of_Z w;
                byte_of_Z (h / 256); byte_of_Z h; v];
|}.

(** A decoder for the files [encode] writes: the two dimensions, then
    the raw channels, row by row. *)
Fixpoint pixels_of (data : list byte) : list px8 :=
  match data with
  | r :: g :: b :: rest => (r, g, b) :: pixels_of rest
  | _ => []
  end.

Fixpoint rows_of (rows cols : nat) (pxs : list px8) : grid px8 :=
  match rows with
  | O => []
  | S rows' => take cols pxs :: rows_of rows' cols (drop cols pxs)
  end.

Definition read_image (data : list byte) : result (grid px8) :=
  match data with
  | [_; _; _; _; _] => decode data
  | h :: w :: rest =>
      Ok (rows_of (Z.to_nat (Z_of_byte h)) (Z.to_nat (Z_of_byte w)) (pixels_of rest))
  | _ => Raise OSError
  end.

(** A service that answers every request, naming the top-left pixel of
    the image it was given; floats are printed as fractions. *)
Definition show_fraction (q : Qc) : string :=
  pretty (Qnum q) +:+ "/" +:+ pretty (Z.pos (Qden q)).

Definition services : Services := {|
  Image_open := read_image;
  generate_content := fun model_name prompt img =>
    Some (model_name +:+ " saw "
          +:+ pretty (Z_of_byte (default (Byte.x00, Byte.x00, Byte.x00)
                                   (at2 img 0 0)).1.1));
  py_str_float := show_fraction;
  py_format_4f := show_fraction;
|}.

(** A service whose every request fails. *)
Definition services_down : Services := {|
  Image_open := read_image;
  generate_content := fun _ _ _ => None;
  py_str_float := show_fraction;
  py_format_4f := show_fraction;
|}.

End Concrete.

(** * Properties *)

(** ** Shapes *)

Lemma has_shape_shape {A} (h w : nat) (g : grid A) :
  has_shape h w g -> (0 < h)%nat -> shape g = (h, w).
Proof.
  intros [Hlen Hrows] Hpos. unfold shape. rewrite Hlen. f_equal.
  destruct g as [|row g]; simpl in *; [lia|].
  by inversion Hrows.
Qed.

Lemma has_shape_map_seq {A} (f : nat -> nat -> A) (h w : nat) :
  has_shape h w (map (fun y => map (fun x => f y x) (seq 0 w)) (seq 0 h)).
Proof.
  split.
  - by rewrite length_map, length_seq.
  - apply Forall_forall. intros row Hrow.
    apply list_elem_of_fmap in Hrow as (y & -> & _).
    by rewrite length_map, length_seq.
Qed.

Lemma at2_map_seq {A} (f : nat -> nat -> A) (h w y x : nat) :
  (y < h)%nat -> (x < w)%nat ->
  at2 (map (fun y => map (fun x => f y x) (seq 0 w)) (seq 0 h)) y x = Some (f y x).
Proof.
  intros Hy Hx. unfold at2.
  change (map ?f ?l) with (f <$> l).
  rewrite list_lookup_fmap.
  rewrite (proj2 (lookup_seq 0 h y y)) by (split; [done | lia]). simpl.
  change (map ?f ?l) with (f <$> l).
  rewrite list_lookup_fmap.
  by rewrite (proj2 (lookup_seq 0 w x x)) by (split; [done | lia]).
Qed.

Lemma has_shape_map {A B} (f : A -> B) (h w : nat) (g : grid A) :
  has_shape h w g -> has_shape h w (map (map f) g).
Proof.
  intros [Hlen Hrows]. split.
  - by rewrite length_map.
  - apply Forall_forall. intros row Hrow.
    change (map ?f ?l) with (f <$> l) in Hrow.
    apply list_elem_of_fmap in Hrow as (row' & -> & Hin).
    rewrite length_map. rewrite Forall_forall in Hrows. by apply Hrows.
Qed.

(** ** The mask *)

Lemma circular_mask_shape (rows cols : nat) :
  has_shape rows cols (circular_mask (rows, cols)).
Proof. exact (has_shape_map_seq (mask_at (rows, cols)) rows cols). Qed.

Lemma circular_mask_at (rows cols y x : nat) :
  (y < rows)%nat -> (x < cols)%nat ->
  at2 (circular_mask (rows, cols)) y x = Some (mask_at (rows, cols) y x).
Proof. exact (at2_map_seq (mask_at (rows, cols)) rows cols y x). Qed.

Lemma centered_mask_at2 (rows cols y x : nat) :
  (y < rows)%nat -> (x < cols)%nat ->
  at2 (centered_mask (rows, cols)) y x = Some (centered_mask_at (rows, cols) y x).
Proof. exact (at2_map_seq (centered_mask_at (rows, cols)) rows cols y x). Qed.

(** On a square map the centre pixel is always selected. *)
Lemma mask_at_center_square (s : nat) :
  mask_at (s, s) (s / 2) (s / 2) = true.
Proof.
  unfold mask_at, center, radius. cbn [fst snd].
  rewrite Nat2Z.inj_div. change (Z.of_nat 2) with 2.
  apply Z.leb_le. rewrite Z.sub_diag.
  apply Z.le_trans with 0; [vm_compute; discriminate |].
  rewrite Z.pow_2_r. apply Z.square_nonneg.
Qed.

(** When the two half-dimensions agree, the two masks are the same. *)
Lemma mask_centered_if (rows cols : nat) :
  (rows / 2 = cols / 2)%nat ->
  circular_mask (rows, cols) = centered_mask (rows, cols).
Proof.
  intros Heq. unfold circular_mask, centered_mask.
  apply map_ext. intros y. apply map_ext. intros x.
  unfold mask_at, centered_mask_at, center. cbn [fst snd].
  assert (Z.of_nat rows / 2 = Z.of_nat cols / 2) as ->; [|done].
  change 2 with (Z.of_nat 2). rewrite <- !Nat2Z.inj_div. by rewrite Heq.
Qed.

(** The point of the centred disc that is farthest from the other centre
    lies outside the disc around that other centre. *)
Lemma disc_rim_inside (a d : Z) :
  (a - 10) ^ 2 + 0 ^ 2 <= (a - 10) ^ 2.
Proof. lia. Qed.

Lemma disc_rim_outside (a b : Z) :
  10 <= a -> a < b -> ~ ((b - 10) ^ 2 + (a - b) ^ 2 <= (a - 10) ^ 2).
Proof. intros Ha Hab. nia. Qed.

(** On maps of at least 20 x 20 (a non-negative radius) the two masks
    differ as soon as the half-dimensions differ. *)
Lemma mask_centered_only_if (rows cols : nat) :
  (20 <= rows)%nat -> (20 <= cols)%nat ->
  circular_mask (rows, cols) = centered_mask (rows, cols) ->
  (rows / 2 = cols / 2)%nat.
Proof.
  intros Hr Hc Heq.
  destruct (decide (rows / 2 = cols / 2)%nat) as [|Hne]; [done | exfalso].
  assert (Hz0 : Z.of_nat rows / 2 = Z.of_nat (rows / 2))
    by (by rewrite Nat2Z.inj_div).
  assert (Hz1 : Z.of_nat cols / 2 = Z.of_nat (cols / 2))
    by (by rewrite Nat2Z.inj_div).
  assert (Hb0 : (10 <= rows / 2 /\ 2 * (rows / 2) <= rows)%nat).
  { pose proof (Nat.div_mod_eq rows 2). pose proof (Nat.mod_upper_bound rows 2). lia. }
  assert (Hb1 : (10 <= cols / 2 /\ 2 * (cols / 2) <= cols)%nat).
  { pose proof (Nat.div_mod_eq cols 2). pose proof (Nat.mod_upper_bound cols 2). lia. }
  revert Hne Hz0 Hz1 Hb0 Hb1.
  generalize (rows / 2)%nat (cols / 2)%nat. intros c0 c1 Hne Hz0 Hz1 Hb0 Hb1.
  destruct (decide (c0 < c1)%nat) as [Hlt|Hge].
  - (* the point right of the true centre, at distance radius *)
    assert (Hy : (c0 < rows)%nat) by lia.
    assert (Hx : (c1 + c0 - 10 < cols)%nat) by lia.
    pose proof (circular_mask_at rows cols _ _ Hy Hx) as H1.
    pose proof (centered_mask_at2 rows cols _ _ Hy Hx) as H2.
    rewrite Heq, H2 in H1. injection H1 as H1.
    unfold mask_at, centered_mask_at, center, radius in H1. cbn [fst snd] in H1.
    rewrite Hz0, Hz1, Z.min_l in H1 by lia.
    replace (Z.of_nat (c1 + c0 - 10) - Z.of_nat c1) with (Z.of_nat c0 - 10) in H1 by lia.
    replace (Z.of_nat (c1 + c0 - 10) - Z.of_nat c0) with (Z.of_nat c1 - 10) in H1 by lia.
    rewrite Z.sub_diag in H1.
    rewrite (proj2 (Z.leb_le _ _) (disc_rim_inside (Z.of_nat c0) 0)) in H1.
    symmetry in H1. apply Z.leb_le in H1.
    by apply (disc_rim_outside (Z.of_nat c0) (Z.of_nat c1)); [lia | lia |].
  - (* the point below the true centre, at distance radius *)
    assert (Hy : (c0 + c1 - 10 < rows)%nat) by lia.
    assert (Hx : (c1 < cols)%nat) by lia.
    pose proof (circular_mask_at rows cols _ _ Hy Hx) as H1.
    pose proof (centered_mask_at2 rows cols _ _ Hy Hx) as H2.
    rewrite Heq, H2 in H1. injection H1 as H1.
    unfold mask_at, centered_mask_at, center, radius in H1. cbn [fst snd] in H1.
    rewrite Hz0, Hz1, Z.min_r in H1 by lia.
    replace (Z.of_nat (c0 + c1 - 10) - Z.of_nat c0) with (Z.of_nat c1 - 10) in H1 by lia.
    replace (Z.of_nat (c0 + c1 - 10) - Z.of_nat c1) with (Z.of_nat c0 - 10) in H1 by lia.
    rewrite Z.sub_diag in H1.
    rewrite (Z.add_comm (0 ^ 2)) in H1.
    rewrite (proj2 (Z.leb_le _ _) (disc_rim_inside (Z.of_nat c1) 0)) in H1.
    symmetry in H1. apply Z.leb_le in H1.
    apply (disc_rim_outside (Z.of_nat c1) (Z.of_nat c0)); [lia | lia |].
    by rewrite Z.add_comm.
Qed.

(** C10, as stated, fails: a 30 x 31 map is not square, yet the mask the
    code builds is the truly centred one. *)
Lemma C10_nonsquare_masks_coincide :
  circular_mask (30, 31)%nat = centered_mask (30, 31)%nat /\ (30 <> 31)%nat.
Proof. split; [vm_compute; reflexivity | lia]. Qed.

(** C10 (amended): the code compares the column index with the row
    centre and the row index with the column centre; the resulting mask
    is the truly centred one whenever [rows // 2 = cols // 2], on maps of
    at least 20 x 20 only then, and in particular for the two classifier
    input sizes 299 x 299 and 224 x 224. *)
Theorem C10_mask_centered_iff_half_dimensions_agree :
  (forall rows cols : nat,
     (rows / 2 = cols / 2)%nat ->
     circular_mask (rows, cols) = centered_mask (rows, cols)) /\
  (forall rows cols : nat,
     (20 <= rows)%nat -> (20 <= cols)%nat ->
     circular_mask (rows, cols) = centered_mask (rows, cols) ->
     (rows / 2 = cols / 2)%nat) /\
  (forall sel : selected_model,
     circular_mask (img_size_of sel) = centered_mask (img_size_of sel)).
Proof.
  split; [exact mask_centered_if |].
  split; [exact mask_centered_only_if |].
  intros []; by apply mask_centered_if.
Qed.

(** C10 at a concrete input: the two masks agree at 299 x 299, and the half-dimensions of a 22 x 24 map differ. *)
Lemma C10_witness :
  circular_mask (299, 299)%nat = centered_mask (299, 299)%nat /\
  ((22 / 2 = 24 / 2)%nat -> False).
Proof.
  split.
  - apply (proj1 C10_mask_centered_iff_half_dimensions_agree). reflexivity.
  - intros Heq. vm_compute in Heq. discriminate.
Defined.

(** C7, at the size (width 24, height 22): the gradient map has 22 rows
    and 24 columns, its smaller dimension is 22, and the centre pixel
    (row 11, column 12) is not in the mask the code builds, although it
    is in the truly centred one.  At the size (width 100, height 22) the
    mask the code builds is empty, and the maximum of the empty brain
    area raises ValueError. *)
Theorem C7_center_pixel_masked_out :
  let gradients :=
    gradient_map Concrete.libs Concrete.ramp_model
      (Concrete.uniform 22 24 (0%Qc, 0%Qc, 0%Qc)) 0 (24, 22)%nat in
  let shp := shape gradients in
  let wide :=
    gradient_map Concrete.libs Concrete.ramp_model
      (Concrete.uniform 22 100 (0%Qc, 0%Qc, 0%Qc)) 0 (100, 22)%nat in
  (shp = (22, 24)%nat /\
   (22 <= Nat.min shp.1 shp.2)%nat /\
   center_pixel shp = (11, 12)%nat /\
   at2 (circular_mask shp) (center_pixel shp).1 (center_pixel shp).2 = Some false /\
   at2 (centered_mask shp) (center_pixel shp).1 (center_pixel shp).2 = Some true) /\
  (shape wide = (22, 100)%nat /\
   select wide (circular_mask (shape wide)) = [] /\
   sharpen wide = Raise ValueError).
Proof.
  cbv zeta. split.
  - vm_compute. split; [reflexivity|]. split; [lia|]. by repeat split.
  - split; [by vm_compute|]. split; by vm_compute.
Qed.

(** ** Selection and assignment under a mask *)

Lemma select_row_zip_with {A} (k : A -> bool -> A) (row : list A) (mrow : list bool) :
  (forall v, k v true = v) ->
  select_row (zip_with k row mrow) mrow = select_row row mrow.
Proof.
  intros Hk. revert mrow. induction row as [|v row IH]; intros [|b mrow]; simpl; try done.
  destruct b; rewrite ?Hk, IH; done.
Qed.

Lemma select_row_map_if {A} (f : A -> A) (d : A -> A) (row : list A) (mrow : list bool) :
  select_row (zip_with (fun v (b : bool) => if b then f v else d v) row mrow) mrow
  = f <$> select_row row mrow.
Proof.
  revert mrow. induction row as [|v row IH]; intros [|b mrow]; simpl; try done.
  destruct b; simpl; by rewrite IH.
Qed.

Lemma select_row_fmap {A} (f : A -> A) (row : list A) (mrow : list bool) :
  select_row (map f row) mrow = f <$> select_row row mrow.
Proof.
  revert mrow. induction row as [|v row IH]; intros [|b mrow]; simpl; try done.
  destruct b; simpl; by rewrite IH.
Qed.

Lemma select_map_if {A} (f d : A -> A) (g : grid A) (m : grid bool) :
  select (zip_with (zip_with (fun v (b : bool) => if b then f v else d v)) g m) m
  = f <$> select g m.
Proof.
  unfold select. revert m. induction g as [|row g IH]; intros [|mrow m]; simpl; try done.
  rewrite fmap_app, <- IH. f_equal. apply select_row_map_if.
Qed.

Lemma select_fmap {A} (f : A -> A) (g : grid A) (m : grid bool) :
  select (map (map f) g) m = f <$> select g m.
Proof.
  unfold select. revert m. induction g as [|row g IH]; intros [|mrow m]; simpl; try done.
  rewrite fmap_app, <- IH. f_equal. apply select_row_fmap.
Qed.

Lemma select_apply_mask (g : grid Qc) (m : grid bool) :
  select (apply_mask g m) m = select g m.
Proof.
  unfold apply_mask.
  rewrite (select_map_if (fun v => v) (fun _ => 0%Qc)).
  by rewrite list_fmap_id.
Qed.

Lemma elem_of_select_row {A} (row : list A) (mrow : list bool) (x : nat) (v : A) :
  row !! x = Some v -> mrow !! x = Some true -> v ∈ select_row row mrow.
Proof.
  revert mrow x. induction row as [|v' row IH]; intros [|b mrow] [|x]; simpl; try done.
  - intros [= ->] [= ->]. left.
  - intros Hv Hm. destruct b; [right |]; by eapply IH.
Qed.

Lemma elem_of_select {A} (g : grid A) (m : grid bool) (y x : nat) (v : A) :
  at2 g y x = Some v -> at2 m y x = Some true -> v ∈ select g m.
Proof.
  unfold at2, select. revert m y.
  induction g as [|row g IH]; intros [|mrow m] [|y]; simpl; try done.
  - intros Hv Hm. apply elem_of_app. left. by eapply elem_of_select_row.
  - intros Hv Hm. apply elem_of_app. right. by eapply IH.
Qed.

(** Writing back the selected entries, each changed by [f], is a
    pointwise update of the selected entries. *)
Lemma assign_row_select_row {A} (f : A -> A) (row : list A) (mrow : list bool)
    (rest : list A) :
  length row = length mrow ->
  assign_row row mrow ((f <$> select_row row mrow) ++ rest)
  = (zip_with (fun v (b : bool) => if b then f v else v) row mrow, rest).
Proof.
  revert mrow. induction row as [|v row IH]; intros [|b mrow] Hlen; simpl in *; try done.
  destruct b; simpl; rewrite IH by lia; done.
Qed.

Lemma assign_select {A} (f : A -> A) (g : grid A) (m : grid bool) :
  Forall2 (fun row mrow => length row = length mrow) g m ->
  assign g m (f <$> select g m)
  = zip_with (zip_with (fun v (b : bool) => if b then f v else v)) g m.
Proof.
  unfold select. induction 1 as [|row mrow g m Hlen _ IH]; simpl; [done|].
  rewrite fmap_app, assign_row_select_row by done. by rewrite IH.
Qed.

Lemma has_shape_Forall2 {A B} (h w : nat) (g : grid A) (m : grid B) :
  has_shape h w g -> has_shape h w m ->
  Forall2 (fun row mrow => length row = length mrow) g m.
Proof.
  intros [Hg Hgr] [Hm Hmr]. apply Forall2_same_length_lookup_2.
  - by rewrite Hg, Hm.
  - intros i row mrow Hrow Hmrow.
    rewrite Forall_lookup in Hgr. rewrite Forall_lookup in Hmr.
    by rewrite (Hgr _ _ Hrow), (Hmr _ _ Hmrow).
Qed.

Lemma has_shape_zip_with {A B C} (k : A -> B -> C) (h w : nat)
    (g : grid A) (m : grid B) :
  has_shape h w g -> has_shape h w m ->
  has_shape h w (zip_with (zip_with k) g m).
Proof.
  intros [Hg Hgr] [Hm Hmr]. split.
  - rewrite length_zip_with. lia.
  - apply Forall_lookup. intros i row Hrow.
    rewrite lookup_zip_with in Hrow.
    destruct (g !! i) as [r|] eqn:Hr; [|done]. simpl in Hrow.
    destruct (m !! i) as [mr|] eqn:Hmr'; [|done]. simpl in Hrow.
    injection Hrow as <-. rewrite length_zip_with.
    rewrite Forall_lookup in Hgr. rewrite Forall_lookup in Hmr.
    rewrite (Hgr _ _ Hr), (Hmr _ _ Hmr'). lia.
Qed.

Lemma zip_with_zip_with_same {A} (k1 k2 : A -> bool -> A) (g : grid A) (m : grid bool) :
  zip_with (zip_with k2) (zip_with (zip_with k1) g m) m
  = zip_with (zip_with (fun v b => k2 (k1 v b) b)) g m.
Proof.
  revert m. induction g as [|row g IH]; intros [|mrow m]; simpl; try done.
  rewrite IH. f_equal.
  clear. revert mrow. induction row as [|v row IH]; intros [|b mrow]; simpl; try done.
  by rewrite IH.
Qed.

(** ** Arithmetic on rationals *)

Lemma Qc_eq_Qeq (x y : Qc) : x = y -> (x == y)%Q.
Proof. by intros ->. Qed.

(** Goals over [Qc] are moved to [Q], where [lra] and [nra] work. *)
Ltac qc_to_q :=
  repeat match goal with
  | |- @eq Qc _ _ => apply Qc_is_canon
  | H : @eq Qc _ _ |- _ => apply Qc_eq_Qeq in H
  | |- ~ @eq Qc _ _ => let H := fresh in intros H
  end;
  unfold Qcle, Qclt, Qcminus, Qc_of_Z in *;
  cbn [this Qcplus Qcmult Qcopp Q2Qc] in *;
  repeat (setoid_rewrite Qred_correct);
  repeat match goal with
  | H : context [Qred _] |- _ => setoid_rewrite Qred_correct in H
  end.
Ltac qc_lra := qc_to_q; lra.
Ltac qc_nra := qc_to_q; nra.

Lemma Qc_max_l (a b : Qc) : (a <= Qc_max a b)%Qc.
Proof. unfold Qc_max. case_decide; [done | apply Qcle_refl]. Qed.

Lemma Qc_max_r (a b : Qc) : (b <= Qc_max a b)%Qc.
Proof.
  unfold Qc_max. case_decide; [apply Qcle_refl |].
  apply Qclt_le_weak. by apply Qcnot_le_lt.
Qed.

Lemma Qc_min_l (a b : Qc) : (Qc_min a b <= a)%Qc.
Proof.
  unfold Qc_min. case_decide; [apply Qcle_refl |].
  apply Qclt_le_weak. by apply Qcnot_le_lt.
Qed.

Lemma Qc_min_r (a b : Qc) : (Qc_min a b <= b)%Qc.
Proof. unfold Qc_min. case_decide; [done | apply Qcle_refl]. Qed.

Lemma foldr_Qc_max_ge (v : Qc) (l : list Qc) (x : Qc) :
  x ∈ l ++ [v] -> (x <= foldr Qc_max v l)%Qc.
Proof.
  induction l as [|a l IH]; simpl.
  - intros ->%list_elem_of_singleton. apply Qcle_refl.
  - intros [->|Hx]%elem_of_cons; [apply Qc_max_l |].
    eapply Qcle_trans; [by apply IH | apply Qc_max_r].
Qed.

Lemma foldr_Qc_min_le (v : Qc) (l : list Qc) (x : Qc) :
  x ∈ l ++ [v] -> (foldr Qc_min v l <= x)%Qc.
Proof.
  induction l as [|a l IH]; simpl.
  - intros ->%list_elem_of_singleton. apply Qcle_refl.
  - intros [->|Hx]%elem_of_cons; [apply Qc_min_l |].
    eapply Qcle_trans; [apply Qc_min_r | by apply IH].
Qed.

Lemma np_max_ge (l : list Qc) (mx x : Qc) :
  np_max l = Ok mx -> x ∈ l -> (x <= mx)%Qc.
Proof.
  destruct l as [|v l]; [done|]. intros [= <-] Hx.
  apply foldr_Qc_max_ge. apply elem_of_app.
  apply elem_of_cons in Hx as [->|Hx]; [right; apply list_elem_of_singleton | left]; done.
Qed.

Lemma np_min_le (l : list Qc) (mn x : Qc) :
  np_min l = Ok mn -> x ∈ l -> (mn <= x)%Qc.
Proof.
  destruct l as [|v l]; [done|]. intros [= <-] Hx.
  apply foldr_Qc_min_le. apply elem_of_app.
  apply elem_of_cons in Hx as [->|Hx]; [right; apply list_elem_of_singleton | left]; done.
Qed.

Lemma np_max_is_Ok (l : list Qc) : l <> [] -> exists mx, np_max l = Ok mx.
Proof. destruct l; [done | eauto]. Qed.

Lemma np_min_is_Ok (l : list Qc) : l <> [] -> exists mn, np_min l = Ok mn.
Proof. destruct l; [done | eauto]. Qed.

(** Between the minimum and a larger maximum the rescaled value lies in
    [0, 1]. *)
Lemma rescale_range (mn mx v : Qc) :
  (mn < mx)%Qc -> (mn <= v)%Qc -> (v <= mx)%Qc ->
  (0 <= rescale mn mx v)%Qc /\ (rescale mn mx v <= 1)%Qc.
Proof.
  intros Hlt Hlo Hhi. unfold rescale, Qcdiv, Qcinv.
  qc_to_q. split.
  - apply Qle_shift_div_l; lra.
  - apply Qle_shift_div_r; lra.
Qed.

(** ** The normalisation *)

Lemma mapM_result_Ok {A B} (f : A -> result B) (k : A -> B) (l : list A) :
  (forall a, a ∈ l -> f a = Ok (k a)) -> mapM_result f l = Ok (k <$> l).
Proof.
  induction l as [|a l IH]; intros Hf; simpl; [done|].
  rewrite Hf by left. simpl. rewrite IH; [done|].
  intros b Hb. apply Hf. by right.
Qed.

Lemma normalize_values_spread (l : list Qc) (mn mx : Qc) :
  np_max l = Ok mx -> np_min l = Ok mn -> (mn < mx)%Qc ->
  normalize_values l = Ok (rescale mn mx <$> l).
Proof.
  intros Hmx Hmn Hlt. unfold normalize_values. rewrite Hmx, Hmn. simpl.
  rewrite decide_True by done.
  apply mapM_result_Ok. intros v _. unfold np_true_divide.
  rewrite decide_False; [done|]. qc_lra.
Qed.

Lemma normalize_values_flat (l : list Qc) (mn mx : Qc) :
  np_max l = Ok mx -> np_min l = Ok mn -> ~ (mn < mx)%Qc ->
  normalize_values l = Ok l.
Proof.
  intros Hmx Hmn Hlt. unfold normalize_values. rewrite Hmx, Hmn. simpl.
  by rewrite decide_False.
Qed.

(** Whatever the values, the normalisation does not divide by zero. *)
Lemma normalize_values_is_Ok (l : list Qc) :
  l <> [] -> exists l', normalize_values l = Ok l'.
Proof.
  intros Hne.
  destruct (np_max_is_Ok l Hne) as [mx Hmx].
  destruct (np_min_is_Ok l Hne) as [mn Hmn].
  destruct (decide (mn < mx)%Qc).
  - eexists. by apply normalize_values_spread.
  - eexists. by eapply normalize_values_flat.
Qed.

Lemma normalize_values_empty : normalize_values [] = Raise ValueError.
Proof. reflexivity. Qed.

Lemma normalize_values_length (l l' : list Qc) :
  normalize_values l = Ok l' -> length l' = length l.
Proof.
  intros Hn. destruct l as [|v l]; [done|].
  destruct (np_max_is_Ok (v :: l)) as [mx Hmx]; [done|].
  destruct (np_min_is_Ok (v :: l)) as [mn Hmn]; [done|].
  destruct (decide (mn < mx)%Qc).
  - rewrite (normalize_values_spread _ _ _ Hmx Hmn) in Hn by done.
    injection Hn as <-. exact (length_fmap _ (v :: l)).
  - rewrite (normalize_values_flat _ _ _ Hmx Hmn) in Hn by done.
    by injection Hn as <-.
Qed.

(** ** The 80th percentile *)

(** Closed statements over [Qc] are decided by evaluation. *)
Ltac vm_decide := apply (bool_decide_unpack _); vm_compute; exact I.

Lemma virtual_index_80 (m : Z) :
  (Qc_of_Z 80 / Qc_of_Z 100 * Qc_of_Z m)%Qc = Q2Qc (4 * m # 5).
Proof.
  unfold Qcdiv, Qcinv. qc_to_q.
  unfold Qeq, Qmult, Qinv, inject_Z. simpl. lia.
Qed.

Lemma Qfloor_Q2Qc (q : Q) : Qfloor (Q2Qc q) = Qfloor q.
Proof. simpl. apply Qfloor_comp, Qred_correct. Qed.

Lemma gamma_80 (m : Z) :
  0 <= m ->
  (Q2Qc (4 * m # 5) - Qc_of_Z (Z.of_nat (Z.to_nat (4 * m / 5))))%Qc
  = Q2Qc ((4 * m) mod 5 # 5).
Proof.
  intros Hm. rewrite Z2Nat.id by (apply Z.div_pos; lia).
  pose proof (Z.div_mod (4 * m) 5 ltac:(lia)) as Hdm.
  qc_to_q. unfold Qeq, Qplus, Qopp, inject_Z. simpl. lia.
Qed.

(** [np.percentile(a, 80)] reads the sorted values at index
    [4 (n - 1) // 5] and moves towards the next one by the fraction
    [(4 (n - 1) mod 5) / 5]. *)
Lemma np_percentile_80 (a : list Qc) :
  a <> [] ->
  let sorted := merge_sort Qcle a in
  let m := Z.of_nat (length a) - 1 in
  let k := Z.to_nat (4 * m / 5) in
  let lo := nth k sorted 0%Qc in
  let hi := nth (Nat.min (k + 1) (length a - 1)) sorted 0%Qc in
  np_percentile a 80 = Ok (lo + (hi - lo) * Q2Qc ((4 * m) mod 5 # 5))%Qc.
Proof.
  intros Hne. destruct a as [|v a]; [done|].
  cbv zeta. unfold np_percentile.
  set (n := length (v :: a)).
  assert (Hm : 0 <= Z.of_nat n - 1) by (unfold n; simpl; lia).
  rewrite virtual_index_80, Qfloor_Q2Qc.
  change (Qfloor (4 * (Z.of_nat n - 1) # 5)) with (4 * (Z.of_nat n - 1) / 5).
  by rewrite gamma_80.
Qed.

Lemma np_percentile_is_Ok (a : list Qc) (q : Z) :
  a <> [] -> exists thr, np_percentile a q = Ok thr.
Proof. destruct a; [done | eauto]. Qed.

Lemma percentile_index_lt (n : nat) :
  (0 < n)%nat -> (Z.to_nat (4 * (Z.of_nat n - 1) / 5) < n)%nat.
Proof.
  intros Hn.
  assert (4 * (Z.of_nat n - 1) / 5 <= Z.of_nat n - 1).
  { apply Z.div_le_upper_bound; lia. }
  assert (0 <= 4 * (Z.of_nat n - 1) / 5) by (apply Z.div_pos; lia).
  lia.
Qed.

Lemma merge_sort_length (a : list Qc) : length (merge_sort Qcle a) = length a.
Proof. apply Permutation_length, merge_sort_Permutation. Qed.

(** On a flat selection the threshold is the common value. *)
Lemma np_percentile_flat (a : list Qc) (c : Qc) :
  a <> [] -> Forall (fun v => v = c) a -> np_percentile a 80 = Ok c.
Proof.
  intros Hne Hall. rewrite np_percentile_80 by done.
  assert (Hs : Forall (fun v => v = c) (merge_sort Qcle a)).
  { by rewrite merge_sort_Permutation. }
  assert (Hn : (0 < length a)%nat) by (destruct a; simpl; [done | lia]).
  assert (Hnth : forall i, (i < length a)%nat -> nth i (merge_sort Qcle a) 0%Qc = c).
  { intros i Hi.
    destruct (lookup_lt_is_Some_2 (merge_sort Qcle a) i) as [x Hx];
      [by rewrite merge_sort_length |].
    rewrite (nth_lookup_Some _ _ _ _ Hx).
    rewrite Forall_lookup in Hs. by eapply Hs. }
  rewrite !Hnth; [f_equal; ring | lia | by apply percentile_index_lt].
Qed.

(** ** Counting what the threshold keeps *)

Lemma StronglySorted_lookup_lt {A} (R : relation A) (s : list A) (i j : nat) (x y : A) :
  StronglySorted R s -> s !! i = Some x -> s !! j = Some y -> (i < j)%nat -> R x y.
Proof.
  intros Hs. revert i j. induction Hs as [|a s Hs IH Hall]; intros i j Hi Hj Hlt; [done|].
  destruct j as [|j]; [lia|]. simpl in Hj.
  destruct i as [|i]; simpl in Hi.
  - injection Hi as <-. rewrite Forall_lookup in Hall. by eapply Hall.
  - eapply IH; [done | done | lia].
Qed.

Lemma filter_none {A} (P : A -> Prop) `{!forall x, Decision (P x)} (l : list A) :
  Forall (fun x => ~ P x) l -> filter P l = [].
Proof.
  induction 1 as [|x l Hx _ IH]; [done|].
  by rewrite filter_cons_False.
Qed.

(** What is not below the threshold lies at or after the position whose
    prefix is entirely below it. *)
Lemma length_filter_after_prefix {A} (P : A -> Prop) `{!forall x, Decision (P x)}
    (s : list A) (k : nat) :
  Forall (fun x => ~ P x) (take k s) ->
  (length (filter P s) <= length s - k)%nat.
Proof.
  intros Hpre. rewrite <- (take_drop k s) at 1.
  rewrite filter_app, (filter_none _ _ Hpre). simpl.
  etrans; [apply length_filter|]. by rewrite length_drop.
Qed.

(** The values strictly above the 80th percentile of [n] values are at
    most [n - 1] fifths, rounded up: the threshold is not below the
    sorted value at position [4 (n - 1) // 5], so they lie after it. *)
Lemma above_threshold_at_most_a_fifth (a : list Qc) (thr : Qc) :
  np_percentile a 80 = Ok thr ->
  (5 * length (filter (fun v => (thr < v)%Qc) a) <= length a + 3)%nat.
Proof.
  intros Hp.
  assert (Hne : a <> []) by (by intros ->).
  rewrite np_percentile_80 in Hp by done. cbv zeta in Hp. injection Hp as Hthr.
  pose proof (merge_sort_Permutation Qcle a) as Hperm.
  pose proof (merge_sort_length a) as Hlen.
  assert (Hs : StronglySorted Qcle (merge_sort Qcle a))
    by (apply StronglySorted_merge_sort; apply _).
  assert (Hcount : length (filter (fun v => (thr < v)%Qc) a)
                   = length (filter (fun v => (thr < v)%Qc) (merge_sort Qcle a))).
  { apply Permutation_length. by rewrite Hperm. }
  rewrite Hcount. clear Hcount Hperm.
  revert Hthr Hlen Hs. generalize (merge_sort Qcle a). intros s Hthr Hlen Hs.
  assert (Hn : (0 < length a)%nat) by (destruct a; simpl; [done | lia]).
  pose proof (percentile_index_lt _ Hn) as Hk.
  revert Hthr Hk. generalize (length a) Hlen Hn. clear a Hne Hlen Hn.
  intros n Hlen Hn Hthr Hk.
  set (m := Z.of_nat n - 1) in *.
  assert (Hm : 0 <= m) by (unfold m; lia).
  pose proof (Z.div_mod (4 * m) 5 ltac:(lia)) as Hdm.
  pose proof (Z.mod_pos_bound (4 * m) 5 ltac:(lia)) as Hr.
  assert (Hq : 0 <= 4 * m / 5) by (apply Z.div_pos; lia).
  assert (Hkz : Z.of_nat (Z.to_nat (4 * m / 5)) = 4 * m / 5) by (by rewrite Z2Nat.id).
  revert Hthr Hk Hkz. generalize (Z.to_nat (4 * m / 5)). intros k Hthr Hk Hkz.
  destruct (lookup_lt_is_Some_2 s k) as [lo Hlo]; [lia|].
  destruct (lookup_lt_is_Some_2 s (Nat.min (k + 1) (n - 1))) as [hi Hhi]; [lia|].
  rewrite (nth_lookup_Some _ _ _ _ Hlo), (nth_lookup_Some _ _ _ _ Hhi) in Hthr.
  assert (Hlohi : (lo <= hi)%Qc).
  { destruct (decide (k = Nat.min (k + 1) (n - 1))) as [Heq|Hneq].
    - rewrite <- Heq, Hlo in Hhi. injection Hhi as <-. apply Qcle_refl.
    - eapply (StronglySorted_lookup_lt Qcle s k); [done | done | done | lia]. }
  assert (Ht : (0 <= Q2Qc ((4 * m) mod 5 # 5))%Qc)
    by (qc_to_q; unfold Qle; simpl; lia).
  assert (Hbelow : (lo <= thr)%Qc).
  { rewrite <- Hthr. revert Ht. generalize (Q2Qc ((4 * m) mod 5 # 5)).
    intros t Ht. qc_nra. }
  assert (Hpre : Forall (fun x => ~ (thr < x)%Qc) (take (k + 1) s)).
  { apply Forall_forall. intros x Hx. apply Qcle_not_lt.
    apply elem_of_take in Hx as (i & Hi & Hik).
    eapply Qcle_trans; [|exact Hbelow].
    destruct (decide (i = k)) as [->|Hne].
    - rewrite Hlo in Hi. injection Hi as <-. apply Qcle_refl.
    - eapply (StronglySorted_lookup_lt Qcle s i k); [done | done | done | lia]. }
  pose proof (length_filter_after_prefix (fun v => (thr < v)%Qc) s (k + 1) Hpre).
  lia.
Qed.

(** What is not below the threshold is above it or equal to it. *)
Lemma length_not_below_split (thr : Qc) (vals : list Qc) :
  length (filter (fun v => ~ (v < thr)%Qc) vals)
  = (length (filter (fun v => (thr < v)%Qc) vals)
     + length (filter (fun v => v = thr) vals))%nat.
Proof.
  induction vals as [|v vals IH]; [done|].
  rewrite !filter_cons.
  destruct (Qc_dec v thr) as [[Hlt|Hgt]|Heq].
  - rewrite (decide_False (P := ~ (v < thr)%Qc)) by (by intros Hn).
    rewrite (decide_False (P := (thr < v)%Qc)) by (by apply Qcle_not_lt, Qclt_le_weak).
    rewrite (decide_False (P := v = thr)) by (by apply Qclt_not_eq).
    exact IH.
  - rewrite (decide_True (P := ~ (v < thr)%Qc)) by (by apply Qcle_not_lt, Qclt_le_weak).
    rewrite (decide_True (P := (thr < v)%Qc)) by done.
    rewrite (decide_False (P := v = thr))
      by (intros ->; by apply (Qclt_not_eq _ _ Hgt)).
    simpl. by rewrite IH.
  - subst v.
    rewrite (decide_True (P := ~ (thr < thr)%Qc)) by (apply Qcle_not_lt, Qcle_refl).
    rewrite (decide_False (P := (thr < thr)%Qc)) by (apply Qcle_not_lt, Qcle_refl).
    rewrite (decide_True (P := thr = thr)) by done.
    simpl. rewrite IH. lia.
Qed.

(** Zeroing what is below the threshold leaves non-zero only values that
    are not below it. *)
Lemma length_nonzero_zero_below (thr : Qc) (vals : list Qc) :
  (length (filter (fun v => v <> 0%Qc)
             ((fun v => if decide (v < thr)%Qc then 0%Qc else v) <$> vals))
   <= length (filter (fun v => ~ (v < thr)%Qc) vals))%nat.
Proof.
  induction vals as [|v vals IH]; [done|].
  rewrite fmap_cons, !filter_cons.
  destruct (decide (v < thr)%Qc) as [Hlt|Hge].
  - rewrite decide_False by (by intros H). by rewrite decide_False by (by intros H).
  - rewrite (decide_True (P := ~ (v < thr)%Qc)) by done.
    case_decide; simpl; lia.
Qed.

(** ** Pointwise view of the masked steps *)

Lemma zip_with_row_mask_ext {A B} (k1 k2 : A -> bool -> B) (row : list A) (mrow : list bool) :
  (forall v, v ∈ select_row row mrow -> k1 v true = k2 v true) ->
  (forall v, k1 v false = k2 v false) ->
  zip_with k1 row mrow = zip_with k2 row mrow.
Proof.
  intros Ht Hf. revert mrow Ht.
  induction row as [|v row IH]; intros [|b mrow] Ht; simpl in *; try done.
  destruct b.
  - rewrite Ht by left. f_equal. apply IH. intros x Hx. apply Ht. by right.
  - rewrite Hf. f_equal. by apply IH.
Qed.

Lemma zip_with_mask_ext {A B} (k1 k2 : A -> bool -> B) (g : grid A) (m : grid bool) :
  (forall v, v ∈ select g m -> k1 v true = k2 v true) ->
  (forall v, k1 v false = k2 v false) ->
  zip_with (zip_with k1) g m = zip_with (zip_with k2) g m.
Proof.
  intros Ht Hf. revert m Ht. unfold select.
  induction g as [|row g IH]; intros [|mrow m] Ht; simpl in *; try done.
  f_equal.
  - apply zip_with_row_mask_ext; [|done].
    intros v Hv. apply Ht, elem_of_app. by left.
  - apply IH. intros v Hv. apply Ht, elem_of_app. by right.
Qed.

Lemma map_zip_with_mask {A B C} (f : B -> C) (k : A -> bool -> B) (g : grid A) (m : grid bool) :
  map (map f) (zip_with (zip_with k) g m) = zip_with (zip_with (fun v b => f (k v b))) g m.
Proof.
  revert m. induction g as [|row g IH]; intros [|mrow m]; simpl; try done.
  rewrite IH. f_equal. clear.
  revert mrow. induction row as [|v row IH]; intros [|b mrow]; simpl; try done.
  by rewrite IH.
Qed.

Lemma Forall_zip_with_mask {A B} (P : B -> Prop) (k : A -> bool -> B) (g : grid A) (m : grid bool) :
  (forall v, v ∈ select g m -> P (k v true)) ->
  (forall v, P (k v false)) ->
  Forall (Forall P) (zip_with (zip_with k) g m).
Proof.
  intros Ht Hf. revert m Ht. unfold select.
  induction g as [|row g IH]; intros [|mrow m] Ht; simpl in *; try done.
  constructor.
  - assert (Hrow : forall v, v ∈ select_row row mrow -> P (k v true)).
    { intros v Hv. apply Ht, elem_of_app. by left. }
    clear Ht IH. revert mrow Hrow.
    induction row as [|v row IH]; intros [|b mrow] Hrow; simpl in *; try done.
    constructor.
    + destruct b; [apply Hrow; left | apply Hf].
    + apply IH. intros x Hx. apply Hrow. destruct b; [by right | done].
  - apply IH. intros v Hv. apply Ht, elem_of_app. by right.
Qed.

Lemma select_nil_l {A} (m : grid bool) : select (@nil (list A)) m = [].
Proof. by destruct m. Qed.

Lemma shape_of_selected {A} (h w : nat) (g : grid A) (m : grid bool) :
  has_shape h w g -> select g m <> [] -> shape g = (h, w).
Proof.
  intros Hg Hsel. apply has_shape_shape; [done|].
  destruct Hg as [<- _]. destruct g; [by rewrite select_nil_l in Hsel | simpl; lia].
Qed.

Lemma apply_mask_shape (h w : nat) (g : grid Qc) (m : grid bool) :
  has_shape h w g -> has_shape h w m -> has_shape h w (apply_mask g m).
Proof. apply has_shape_zip_with. Qed.

(** Lines 93-96 on the masked map, when the selected values differ. *)
Lemma normalize_brain_spread (h w : nat) (g : grid Qc) (m : grid bool) (mn mx : Qc) :
  has_shape h w g -> has_shape h w m ->
  np_max (select g m) = Ok mx -> np_min (select g m) = Ok mn -> (mn < mx)%Qc ->
  normalize_brain (apply_mask g m) m
  = Ok (zip_with (zip_with (fun v (b : bool) => if b then rescale mn mx v else 0%Qc)) g m).
Proof.
  intros Hg Hm Hmx Hmn Hlt. unfold normalize_brain.
  rewrite select_apply_mask.
  rewrite (normalize_values_spread _ _ _ Hmx Hmn Hlt). simpl. f_equal.
  rewrite <- (select_apply_mask g m) at 1.
  rewrite assign_select
    by (eapply has_shape_Forall2; [by apply apply_mask_shape | done]).
  unfold apply_mask. rewrite zip_with_zip_with_same.
  apply zip_with_mask_ext; done.
Qed.

(** Lines 93-96 on the masked map, when the selected values are all the
    same: the map is written back as it was. *)
Lemma normalize_brain_flat (h w : nat) (g : grid Qc) (m : grid bool) (mn mx : Qc) :
  has_shape h w g -> has_shape h w m ->
  np_max (select g m) = Ok mx -> np_min (select g m) = Ok mn -> ~ (mn < mx)%Qc ->
  normalize_brain (apply_mask g m) m = Ok (apply_mask g m).
Proof.
  intros Hg Hm Hmx Hmn Hlt. unfold normalize_brain.
  rewrite select_apply_mask.
  rewrite (normalize_values_flat _ _ _ Hmx Hmn Hlt). simpl. f_equal.
  rewrite <- (list_fmap_id (select g m)).
  rewrite <- (select_apply_mask g m) at 1.
  rewrite assign_select
    by (eapply has_shape_Forall2; [by apply apply_mask_shape | done]).
  unfold apply_mask. rewrite zip_with_zip_with_same.
  apply zip_with_mask_ext; [done | by intros []].
Qed.

(** A selection whose maximum is not above its minimum is constant. *)
Lemma flat_all_equal (l : list Qc) (mn mx : Qc) :
  np_max l = Ok mx -> np_min l = Ok mn -> ~ (mn < mx)%Qc ->
  Forall (fun v => v = mx) l.
Proof.
  intros Hmx Hmn Hlt. apply Forall_forall. intros v Hv.
  pose proof (np_max_ge _ _ _ Hmx Hv) as Hhi.
  pose proof (np_min_le _ _ _ Hmn Hv) as Hlo.
  apply Qcnot_lt_le in Hlt.
  apply Qcle_antisym; [done|]. by eapply Qcle_trans.
Qed.

(** On a flat selection the threshold zeroes nothing that is not zero
    already. *)
Lemma zero_below_flat (g : grid Qc) (m : grid bool) (c : Qc) :
  Forall (fun v => v = c) (select g m) ->
  zero_below c (apply_mask g m) = apply_mask g m.
Proof.
  intros Hall. unfold zero_below, apply_mask. rewrite map_zip_with_mask.
  apply zip_with_mask_ext.
  - intros v Hv. rewrite Forall_forall in Hall. rewrite (Hall v Hv).
    rewrite decide_False; [done | apply Qcle_not_lt, Qcle_refl].
  - intros v. by case_decide.
Qed.

(** ** The sharpened map *)

Lemma sharpen_flat (h w : nat) (g : grid Qc) (mn mx : Qc) :
  has_shape h w g ->
  np_max (select g (circular_mask (shape g))) = Ok mx ->
  np_min (select g (circular_mask (shape g))) = Ok mn ->
  ~ (mn < mx)%Qc ->
  sharpen g = Ok (masked_map g).
Proof.
  intros Hg Hmx Hmn Hlt.
  assert (Hne : select g (circular_mask (shape g)) <> []).
  { intros Hnil. by rewrite Hnil in Hmx. }
  pose proof (shape_of_selected h w g _ Hg Hne) as Hshape.
  unfold sharpen, masked_map. rewrite Hshape in *.
  pose proof (circular_mask_shape h w) as Hm.
  rewrite (normalize_brain_flat h w g _ mn mx) by done. simpl.
  rewrite select_apply_mask.
  pose proof (flat_all_equal _ _ _ Hmx Hmn Hlt) as Hall.
  rewrite (np_percentile_flat _ mx) by done. simpl.
  by rewrite zero_below_flat.
Qed.

Lemma sharpen_spread (h w : nat) (g : grid Qc) (mn mx : Qc) :
  has_shape h w g ->
  let m := circular_mask (shape g) in
  let N := zip_with (zip_with (fun v (b : bool) =>
                       if b then rescale mn mx v else 0%Qc)) g m in
  np_max (select g m) = Ok mx -> np_min (select g m) = Ok mn -> (mn < mx)%Qc ->
  exists thr,
    np_percentile (rescale mn mx <$> select g m) 80 = Ok thr /\
    normalize_brain (masked_map g) m = Ok N /\
    sharpen g = Ok (zero_below thr N).
Proof.
  intros Hg m N Hmx Hmn Hlt. subst m N.
  assert (Hne : select g (circular_mask (shape g)) <> []).
  { intros Hnil. by rewrite Hnil in Hmx. }
  pose proof (shape_of_selected h w g _ Hg Hne) as Hshape.
  pose proof (circular_mask_shape h w) as Hm.
  unfold sharpen, masked_map. rewrite Hshape in *.
  destruct (np_percentile_is_Ok (rescale mn mx <$> select g (circular_mask (h, w))) 80)
    as [thr Hthr].
  { intros Hnil. by apply fmap_nil_inv in Hnil. }
  exists thr. split; [done|].
  rewrite (normalize_brain_spread h w g _ mn mx) by done.
  split; [done|]. simpl.
  rewrite (select_map_if (rescale mn mx) (fun _ => 0%Qc)).
  by rewrite Hthr.
Qed.

Lemma zero_below_Forall (P : Qc -> Prop) (thr : Qc) (g : grid Qc) :
  P 0%Qc -> Forall (Forall P) g -> Forall (Forall P) (zero_below thr g).
Proof.
  intros H0 Hg. unfold zero_below.
  apply Forall_fmap. eapply Forall_impl; [done|]. intros row Hrow. simpl.
  apply Forall_fmap. eapply Forall_impl; [done|]. intros v Hv. simpl.
  by case_decide.
Qed.

Lemma unit_interval_zero : (0 <= 0)%Qc /\ (0 <= 1)%Qc.
Proof. split; qc_lra. Qed.

(** C3, as stated, fails: a gradient that is 5 everywhere gives a flat
    brain area, the map is written back as it was, and the centre pixel
    of the normalised and of the sharpened map holds 5, which is neither
    in [0, 1] nor zero. *)
Lemma C3_flat_map_keeps_its_value :
  let g := gradient_map Concrete.libs (Concrete.flat_model (Qc_of_Z 5))
             (Concrete.uniform 22 22 (0%Qc, 0%Qc, 0%Qc)) 0 (22, 22)%nat in
  let m := circular_mask (shape g) in
  (fun N => at2 N 11 11) <$> normalize_brain (masked_map g) m
    = Ok (Some (Qc_of_Z 5)) /\
  (fun S => at2 S 11 11) <$> sharpen g = Ok (Some (Qc_of_Z 5)) /\
  ~ (Qc_of_Z 5 <= 1)%Qc /\ Qc_of_Z 5 <> 0%Qc.
Proof. cbv zeta. split; [vm_decide | split; [vm_decide | split; vm_decide]]. Qed.

(** C3 (amended): after masking and normalisation every value of the
    map lies in [0, 1]; or the brain area is flat at some value [c], in
    which case the map is left as masked, [c] inside the mask and zero
    outside.  The same holds after the threshold. *)
Theorem C3_normalized_map_in_unit_interval_or_flat (g : grid Qc) (h w : nat) :
  has_shape h w g ->
  select g (circular_mask (shape g)) <> [] ->
  exists N S,
    normalize_brain (masked_map g) (circular_mask (shape g)) = Ok N /\
    sharpen g = Ok S /\
    ((Forall (Forall (fun v => (0 <= v)%Qc /\ (v <= 1)%Qc)) N /\
      Forall (Forall (fun v => (0 <= v)%Qc /\ (v <= 1)%Qc)) S)
     \/
     (exists c, Forall (fun v => v = c) (select g (circular_mask (shape g))) /\
                N = masked_map g /\ S = masked_map g)).
Proof.
  intros Hg Hne.
  destruct (np_max_is_Ok _ Hne) as [mx Hmx].
  destruct (np_min_is_Ok _ Hne) as [mn Hmn].
  destruct (decide (mn < mx)%Qc) as [Hlt|Hflat].
  - destruct (sharpen_spread h w g mn mx Hg Hmx Hmn Hlt) as (thr & _ & HN & HS).
    eexists _, _. split; [exact HN|]. split; [exact HS|]. left.
    assert (HNr : Forall (Forall (fun v => (0 <= v)%Qc /\ (v <= 1)%Qc))
              (zip_with (zip_with (fun v (b : bool) =>
                 if b then rescale mn mx v else 0%Qc)) g (circular_mask (shape g)))).
    { apply Forall_zip_with_mask.
      - intros v Hv. apply rescale_range; [done | |].
        + by eapply np_min_le.
        + by eapply np_max_ge.
      - intros _. apply unit_interval_zero. }
    split; [done|]. apply zero_below_Forall; [apply unit_interval_zero | done].
  - pose proof (shape_of_selected h w g _ Hg Hne) as Hshape.
    exists (masked_map g), (masked_map g). split; [|split].
    + unfold masked_map. rewrite Hshape in *.
      eapply (normalize_brain_flat h w); [done | apply circular_mask_shape | done..].
    + by eapply sharpen_flat.
    + right. exists mx. split; [|done]. by eapply flat_all_equal.
Qed.

(** C3 at a concrete input: the ramp gradient on a 22 x 22 map. *)
Lemma C3_witness :
  let g := gradient_map Concrete.libs Concrete.ramp_model
             (Concrete.uniform 22 22 (0%Qc, 0%Qc, 0%Qc)) 0 (22, 22)%nat in
  exists N S,
    normalize_brain (masked_map g) (circular_mask (shape g)) = Ok N /\
    sharpen g = Ok S /\
    ((Forall (Forall (fun v => (0 <= v)%Qc /\ (v <= 1)%Qc)) N /\
      Forall (Forall (fun v => (0 <= v)%Qc /\ (v <= 1)%Qc)) S)
     \/
     (exists c, Forall (fun v => v = c) (select g (circular_mask (shape g))) /\
                N = masked_map g /\ S = masked_map g)).
Proof.
  cbv zeta.
  apply (C3_normalized_map_in_unit_interval_or_flat _ 22 22); vm_decide.
Defined.

(** C6, as stated, fails: with gradient 1 everywhere but at the centre
    pixel, where it is 0, the brain area of a 22 x 22 map has five
    pixels, the threshold is 1, and four of the five pixels, 80 percent,
    keep a non-zero value. *)
Lemma C6_ties_keep_four_of_five :
  let g := gradient_map Concrete.libs (Concrete.spot_model 11 11)
             (Concrete.uniform 22 22 (0%Qc, 0%Qc, 0%Qc)) 0 (22, 22)%nat in
  let m := circular_mask (shape g) in
  length (select g m) = 5%nat /\
  (fun S => length (filter (fun v => v <> 0%Qc) (select S m))) <$> sharpen g
    = Ok 4%nat.
Proof. cbv zeta. split; vm_decide. Qed.

(** C6 (amended): of the [n] values of the brain area the 80th
    percentile is taken of, at most [n - 1] fifths, rounded up
    ((n + 3) // 5), lie strictly above the threshold.  Line 100 zeroes
    only what is strictly below it, so the pixels that tie with the
    threshold stay as well: the non-zero pixels of the brain area are at
    most those above the threshold plus those equal to it. *)
Theorem C6_threshold_keeps_a_fifth_and_the_ties (g S : grid Qc) (h w : nat) :
  has_shape h w g ->
  sharpen g = Ok S ->
  let mask := circular_mask (shape g) in
  exists N thr,
    normalize_brain (masked_map g) mask = Ok N /\
    np_percentile (select N mask) 80 = Ok thr /\
    S = zero_below thr N /\
    length (select N mask) = length (select g mask) /\
    (5 * length (filter (fun v => (thr < v)%Qc) (select N mask))
     <= length (select g mask) + 3)%nat /\
    (length (filter (fun v => v <> 0%Qc) (select S mask))
     <= length (filter (fun v => (thr < v)%Qc) (select N mask))
        + length (filter (fun v => v = thr) (select N mask)))%nat.
Proof.
  intros Hg HS mask. subst mask.
  assert (Hne : select g (circular_mask (shape g)) <> []).
  { intros Hnil. unfold sharpen, normalize_brain in HS.
    by rewrite select_apply_mask, Hnil in HS. }
  pose proof (shape_of_selected h w g _ Hg Hne) as Hshape.
  pose proof (circular_mask_shape h w) as Hm.
  unfold sharpen in HS. unfold masked_map.
  destruct (normalize_brain _ _) as [N|e] eqn:HN; [|done]. simpl in HS.
  destruct (np_percentile _ 80) as [thr|e] eqn:Hthr; [|done]. simpl in HS.
  injection HS as <-.
  assert (Hlen : length (select N (circular_mask (shape g)))
                 = length (select g (circular_mask (shape g)))).
  { destruct (np_max_is_Ok _ Hne) as [mx Hmx].
    destruct (np_min_is_Ok _ Hne) as [mn Hmn].
    rewrite Hshape in *.
    destruct (decide (mn < mx)%Qc) as [Hlt|Hflat].
    - rewrite (normalize_brain_spread h w g _ mn mx) in HN by done.
      injection HN as <-.
      by rewrite (select_map_if (rescale mn mx) (fun _ => 0%Qc)), length_fmap.
    - rewrite (normalize_brain_flat h w g _ mn mx) in HN by done.
      injection HN as <-. by rewrite select_apply_mask. }
  exists N, thr. split; [done|]. split; [done|]. split; [done|]. split; [done|].
  split.
  - rewrite <- Hlen. by apply above_threshold_at_most_a_fifth.
  - unfold zero_below. rewrite select_fmap.
    etrans; [apply length_nonzero_zero_below|].
    by rewrite length_not_below_split.
Qed.

(** C6 at a concrete input: the ramp gradient on a 22 x 22 map. *)
Lemma C6_witness :
  let g := gradient_map Concrete.libs Concrete.ramp_model
             (Concrete.uniform 22 22 (0%Qc, 0%Qc, 0%Qc)) 0 (22, 22)%nat in
  let mask := circular_mask (shape g) in
  exists S N thr,
    sharpen g = Ok S /\
    normalize_brain (masked_map g) mask = Ok N /\
    np_percentile (select N mask) 80 = Ok thr /\
    S = zero_below thr N /\
    length (select N mask) = length (select g mask) /\
    (5 * length (filter (fun v => (thr < v)%Qc) (select N mask))
     <= length (select g mask) + 3)%nat /\
    (length (filter (fun v => v <> 0%Qc) (select S mask))
     <= length (filter (fun v => (thr < v)%Qc) (select N mask))
        + length (filter (fun v => v = thr) (select N mask)))%nat.
Proof.
  cbv zeta.
  assert (Hg : has_shape 22 22
                 (gradient_map Concrete.libs Concrete.ramp_model
                    (Concrete.uniform 22 22 (0%Qc, 0%Qc, 0%Qc)) 0 (22, 22)%nat))
    by vm_decide.
  destruct (sharpen _) as [S|e] eqn:HS; [|exfalso; vm_compute in HS; discriminate].
  destruct (C6_threshold_keeps_a_fifth_and_the_ties _ S 22 22 Hg HS)
    as (N & thr & HN & Hthr & HSeq & Hlen & Hfifth & Hkept).
  exists S, N, thr. split; [reflexivity|].
  split; [exact HN|]. split; [exact Hthr|]. split; [exact HSeq|].
  split; [exact Hlen|]. split; [exact Hfifth | exact Hkept].
Defined.

(** ** The blend *)

Lemma at2_map {A B} (f : A -> B) (g : grid A) (y x : nat) :
  at2 (map (map f) g) y x = f <$> at2 g y x.
Proof.
  unfold at2. change (map (map f) g) with (map f <$> g).
  rewrite list_lookup_fmap. destruct (g !! y) as [row|]; [|done]. simpl.
  change (map f row) with (f <$> row). apply list_lookup_fmap.
Qed.

Lemma at2_zip_with {A B C} (k : A -> B -> C) (g : grid A) (m : grid B) (y x : nat) :
  at2 (zip_with (zip_with k) g m) y x
  = (v ← at2 g y x; b ← at2 m y x; Some (k v b)).
Proof.
  unfold at2. rewrite lookup_zip_with.
  destruct (g !! y) as [row|]; [|done]. simpl.
  destruct (m !! y) as [mrow|]; simpl.
  - rewrite lookup_zip_with. by destruct (row !! x).
  - by destruct (row !! x).
Qed.

Lemma at2_map_seq_inv {A} (f : nat -> nat -> A) (h w y x : nat) (v : A) :
  at2 (map (fun y => map (fun x => f y x) (seq 0 w)) (seq 0 h)) y x = Some v ->
  v = f y x /\ (y < h)%nat /\ (x < w)%nat.
Proof.
  intros Hat.
  destruct (decide (y < h)%nat) as [Hy|Hy]; last first.
  { unfold at2 in Hat. rewrite lookup_ge_None_2 in Hat; [done|].
    rewrite length_map, length_seq. lia. }
  destruct (decide (x < w)%nat) as [Hx|Hx].
  - rewrite at2_map_seq in Hat by done. by injection Hat as <-.
  - unfold at2 in Hat.
    change (map ?f ?l) with (f <$> l) in Hat. rewrite list_lookup_fmap in Hat.
    rewrite (proj2 (lookup_seq 0 h y y)) in Hat by (split; [done | lia]).
    simpl in Hat. rewrite lookup_ge_None_2 in Hat; [done|].
    rewrite length_map, length_seq. lia.
Qed.

Lemma Z_of_byte_range (b : byte) : 0 <= Z_of_byte b <= 255.
Proof. unfold Z_of_byte. pose proof (Byte.to_N_bounded b). lia. Qed.

Lemma Qc_of_byte_range (b : byte) :
  (0 <= Qc_of_byte b)%Qc /\ (Qc_of_byte b <= Qc_of_Z 255)%Qc.
Proof.
  pose proof (Z_of_byte_range b) as [Hlo Hhi]. unfold Qc_of_byte.
  split; qc_to_q; unfold Qle; simpl; lia.
Qed.

(** A channel of the blend lies between 0 and 255, so clipping it to
    that range changes nothing. *)
Lemma blend_channel_range (h : byte) (o : Qc) :
  (0 <= o)%Qc -> (o <= Qc_of_Z 255)%Qc ->
  (0 <= blend_channel h o)%Qc /\ (blend_channel h o <= Qc_of_Z 255)%Qc.
Proof.
  intros Hlo Hhi. destruct (Qc_of_byte_range h) as [Hhlo Hhhi].
  unfold blend_channel. split; qc_lra.
Qed.

Lemma np_clip_in_range (v lo hi : Qc) :
  (lo <= v)%Qc -> (v <= hi)%Qc -> np_clip v lo hi = v.
Proof.
  intros Hlo Hhi. unfold np_clip, Qc_min, Qc_max.
  destruct (decide (v <= lo)%Qc) as [Hle|Hgt].
  - assert (v = lo) as -> by (by apply Qcle_antisym).
    by rewrite decide_True.
  - by rewrite decide_True.
Qed.

Lemma px_in_range_of_bytes (o : option px8) :
  px_in_range (default (0%Qc, 0%Qc, 0%Qc) (px_map Qc_of_byte <$> o)).
Proof.
  destruct o as [[[r g] b]|]; simpl.
  - repeat split; apply Qc_of_byte_range.
  - repeat split; qc_to_q; unfold Qle; simpl; lia.
Qed.

Lemma img_to_array_in_range (img : grid px8) (y x : nat) :
  px_in_range (at2_bc (0%Qc, 0%Qc, 0%Qc) (img_to_array img) y x).
Proof.
  unfold at2_bc, img_to_array. rewrite at2_map. apply px_in_range_of_bytes.
Qed.

Lemma blend_pixel_clip (hp : px8) (op : pxf) :
  px_in_range op ->
  px_map np_uint8 (px_zip blend_channel hp op)
  = px_zip (fun h o => np_uint8 (np_clip (blend_channel h o) 0%Qc (Qc_of_Z 255))) hp op.
Proof.
  intros ([H1 H1'] & [H2 H2'] & [H3 H3']).
  unfold px_map, px_zip. simpl.
  rewrite !np_clip_in_range; try done; by apply blend_channel_range.
Qed.

(** Every pixel of the result of [superimpose] is the truncated blend
    of the pixels the two operands broadcast to that place. *)
Lemma superimpose_at (heatmap : grid px8) (original_img : grid pxf)
    (overlay : grid px8) (y x : nat) (px : px8) :
  superimpose heatmap original_img = Ok overlay ->
  at2 overlay y x = Some px ->
  px = px_map np_uint8
         (px_zip blend_channel
            (at2_bc (Byte.x00, Byte.x00, Byte.x00) heatmap y x)
            (at2_bc (0%Qc, 0%Qc, 0%Qc) original_img y x)).
Proof.
  unfold superimpose, np_broadcast2.
  destruct (broadcast_dim _ _) as [h|]; [|done].
  destruct (broadcast_dim _ _) as [w|]; [|done].
  simpl. intros [= <-]. rewrite at2_map.
  destruct (at2 _ y x) as [v|] eqn:Hat; [|done].
  apply at2_map_seq_inv in Hat as (-> & _ & _). by intros [= <-].
Qed.


(** ** Shapes along the pipeline *)

Lemma has_shape_shape_eq {A B} (h w : nat) (a : grid A) (b : grid B) :
  has_shape h w a -> has_shape h w b -> shape a = shape b.
Proof.
  intros Ha Hb. destruct (decide (0 < h)%nat) as [Hpos|Hz].
  - by rewrite (has_shape_shape h w a), (has_shape_shape h w b).
  - destruct Ha as [Ha _], Hb as [Hb _].
    destruct a; [|simpl in Ha; lia]. destruct b; [done | simpl in Hb; lia].
Qed.

Lemma has_shape_own {A} (h w : nat) (a : grid A) :
  has_shape h w a -> has_shape (shape a).1 (shape a).2 a.
Proof.
  intros Ha. destruct (decide (0 < h)%nat) as [Hpos|Hz].
  - by rewrite (has_shape_shape h w a).
  - destruct Ha as [Ha _]. destruct a; [|simpl in Ha; lia]. by split.
Qed.

Lemma at2_is_Some {A} (h w : nat) (g : grid A) (y x : nat) :
  has_shape h w g -> (y < h)%nat -> (x < w)%nat -> is_Some (at2 g y x).
Proof.
  intros [Hlen Hrows] Hy Hx. unfold at2.
  destruct (lookup_lt_is_Some_2 g y) as [row Hrow]; [lia|].
  rewrite Hrow. simpl. apply lookup_lt_is_Some_2.
  rewrite Forall_lookup in Hrows. rewrite (Hrows _ _ Hrow). done.
Qed.

Lemma gradient_map_shape (L : Libs) (model : Classifier) (img_array : grid pxf)
    (class_index w h : nat) :
  LibsOk L -> has_shape h w (gradient_map L model img_array class_index (w, h)).
Proof. intros HL. apply (cv2_resize_shape L HL). Qed.

Lemma heatmap_of_shape (L : Libs) (gradients : grid Qc) (w h : nat) :
  LibsOk L -> has_shape h w (heatmap_of L gradients (w, h)).
Proof. intros HL. apply (cv2_resize_u8_shape L HL). Qed.

Lemma img_to_array_shape (h w : nat) (img : grid px8) :
  has_shape h w img -> has_shape h w (img_to_array img).
Proof. apply has_shape_map. Qed.

Lemma broadcast_dim_same (a : nat) : broadcast_dim a a = Some a.
Proof. unfold broadcast_dim. by rewrite decide_True. Qed.

(** Operands of the same shape broadcast to that shape. *)
Lemma superimpose_same_shape (h w : nat) (heatmap : grid px8) (original_img : grid pxf) :
  has_shape h w heatmap -> has_shape h w original_img ->
  exists overlay, superimpose heatmap original_img = Ok overlay /\ has_shape h w overlay.
Proof.
  intros Hh Ho. unfold superimpose, np_broadcast2.
  destruct (decide (0 < h)%nat) as [Hpos|Hz].
  - rewrite (has_shape_shape h w heatmap), (has_shape_shape h w original_img) by done.
    cbn [fst snd]. rewrite !broadcast_dim_same.
    eexists. split; [reflexivity|].
    apply has_shape_map.
    exact (has_shape_map_seq
             (fun y x => px_zip blend_channel
                (at2_bc (Byte.x00, Byte.x00, Byte.x00) heatmap y x)
                (at2_bc (0%Qc, 0%Qc, 0%Qc) original_img y x)) h w).
  - destruct Hh as [Hh _], Ho as [Ho _].
    destruct heatmap; [|simpl in Hh; lia].
    destruct original_img; [|simpl in Ho; lia].
    exists []. split; [reflexivity|]. split; [simpl; lia | constructor].
Qed.

(** On a square map the brain area is not empty: it holds the centre
    pixel. *)
Lemma square_selection_nonempty (s : nat) (g : grid Qc) :
  has_shape s s g -> (0 < s)%nat -> select g (circular_mask (shape g)) <> [].
Proof.
  intros Hg Hs. rewrite (has_shape_shape s s g) by done.
  assert (Hc : (s / 2 < s)%nat) by (apply Nat.div_lt; lia).
  destruct (at2_is_Some s s g (s / 2) (s / 2) Hg Hc Hc) as [v Hv].
  pose proof (circular_mask_at s s _ _ Hc Hc) as Hm.
  rewrite mask_at_center_square in Hm.
  pose proof (elem_of_select _ _ _ _ _ Hv Hm) as Hin.
  intros Hnil. rewrite Hnil in Hin. by apply not_elem_of_nil in Hin.
Qed.

Lemma sharpen_is_Ok (h w : nat) (g : grid Qc) :
  has_shape h w g -> select g (circular_mask (shape g)) <> [] ->
  exists S, sharpen g = Ok S.
Proof.
  intros Hg Hne.
  destruct (np_max_is_Ok _ Hne) as [mx Hmx].
  destruct (np_min_is_Ok _ Hne) as [mn Hmn].
  destruct (decide (mn < mx)%Qc) as [Hlt|Hflat].
  - destruct (sharpen_spread h w g mn mx Hg Hmx Hmn Hlt) as (thr & _ & _ & HS). eauto.
  - eexists. by eapply sharpen_flat.
Qed.

(** With a square size and an image of that size, lines 69-114 return an
    overlay of that size. *)
Lemma saliency_overlay_square (L : Libs) (model : Classifier) (img : grid px8)
    (img_array : grid pxf) (class_index s : nat) :
  LibsOk L -> (0 < s)%nat -> has_shape s s img ->
  exists overlay,
    saliency_overlay L model img img_array class_index (s, s) = Ok overlay /\
    has_shape s s overlay.
Proof.
  intros HL Hs Himg. unfold saliency_overlay.
  pose proof (gradient_map_shape L model img_array class_index s s HL) as Hg.
  destruct (sharpen_is_Ok s s _ Hg (square_selection_nonempty s _ Hg Hs)) as [S HS].
  rewrite HS. simpl.
  apply superimpose_same_shape; [by apply heatmap_of_shape | by apply img_to_array_shape].
Qed.

Lemma generate_saliency_map_persist (L : Libs) (H : Host) (model : Classifier)
    (img : grid px8) (img_array : grid pxf) (class_index : nat)
    (img_size : nat * nat) (uploaded_file : UploadedFile) (fs : files) :
  generate_saliency_map L H model img img_array class_index img_size uploaded_file fs
  = (superimposed_img ← saliency_overlay L model img img_array class_index img_size;
     persist L H uploaded_file superimposed_img fs).
Proof. reflexivity. Qed.

(** ** The concrete collaborators meet the contract *)

Lemma resize_nearest_shape {A} (d : A) (a : grid A) (w h : nat) :
  has_shape h w (Concrete.resize_nearest d a (w, h)).
Proof.
  exact (has_shape_map_seq
           (fun y x => default d (at2 a (y * (shape a).1 / h)%nat
                                         (x * (shape a).2 / w)%nat)) h w).
Qed.

Lemma box_blur_shape (g : grid Qc) (k : nat * nat) (s : Qc) (h w : nat) :
  has_shape h w g -> has_shape h w (Concrete.box_blur g k s).
Proof.
  intros Hg. unfold Concrete.box_blur.
  destruct (decide (0 < h)%nat) as [Hpos|Hz].
  - rewrite (has_shape_shape h w g) by done. apply has_shape_map_seq.
  - destruct Hg as [Hg _]. destruct g; [|simpl in Hg; lia].
    split; [simpl; lia | constructor].
Qed.

Lemma concrete_libs_ok : LibsOk Concrete.libs.
Proof.
  split; simpl.
  - intros g w h. apply resize_nearest_shape.
  - intros a w h. apply resize_nearest_shape.
  - intros g k s h w. apply box_blur_shape.
  - intros im w h. apply resize_nearest_shape.
Qed.

Lemma has_shape_replicate {A} (h w : nat) (v : A) :
  has_shape h w (replicate h (replicate w v)).
Proof.
  split; [by rewrite length_replicate|].
  apply Forall_forall. intros row Hrow.
  apply elem_of_replicate in Hrow as [-> _]. by rewrite length_replicate.
Qed.

(** ** C2: the flat brain area *)

(** Inside an array, broadcasting reads the entry itself. *)
Lemma at2_bc_at {A} (d : A) (h w : nat) (a : grid A) (y x : nat) (v : A) :
  has_shape h w a -> (y < h)%nat -> (x < w)%nat ->
  at2 a y x = Some v -> at2_bc d a y x = v.
Proof.
  intros Ha Hy Hx Hv. unfold at2_bc, bidx.
  rewrite (has_shape_shape h w a) by (done || lia). cbn [fst snd].
  replace (if decide (h = 1%nat) then 0%nat else y) with y
    by (case_decide; lia).
  replace (if decide (w = 1%nat) then 0%nat else x) with x
    by (case_decide; lia).
  by rewrite Hv.
Qed.

(** The heat map of lines 102-110, step by step. *)
Lemma heatmap_of_steps (L : Libs) (gradients : grid Qc) (img_size : nat * nat) :
  heatmap_of L gradients img_size
  = cv2_resize_u8 L
      (map (map (fun v => swap_rb (COLORMAP_JET L (np_uint8 (Qc_of_Z 255 * v)%Qc))))
         (cv2_GaussianBlur L gradients (11, 11)%nat 0%Qc))
      img_size.
Proof.
  unfold heatmap_of, cvtColor_BGR2RGB. f_equal.
  rewrite !map_map. apply map_ext. intros row. by rewrite !map_map.
Qed.




(** ** The two writes *)

(** For a file name that is not an absolute path, [os.path.join] and the
    f-string of line 120 give the same path. *)
Lemma os_path_join_relative (file_name : string) :
  starts_with_slash file_name = false ->
  os_path_join output_dir file_name = "saliency_maps/" +:+ file_name.
Proof. intros Hrel. unfold os_path_join. by rewrite Hrel. Qed.

Lemma persist_open_fails (L : Libs) (H : Host) (up : UploadedFile)
    (o : grid px8) (fs : files) :
  open_wb_ok H (os_path_join output_dir (name up)) = false ->
  persist L H up o fs = Raise OSError.
Proof. intros Hopen. unfold persist, open_write. by rewrite Hopen. Qed.

Lemma persist_no_encoder (L : Libs) (H : Host) (up : UploadedFile)
    (o : grid px8) (fs : files) :
  open_wb_ok H (os_path_join output_dir (name up)) = true ->
  imencode L ("saliency_maps/" +:+ name up) (cvtColor_RGB2BGR o) = None ->
  persist L H up o fs = Raise cv2_error.
Proof.
  intros Hopen Henc. unfold persist, open_write, cv2_imwrite.
  rewrite Hopen. simpl. by rewrite Henc.
Qed.

Lemma persist_imwrite_false (L : Libs) (H : Host) (up : UploadedFile)
    (o : grid px8) (fs : files) (data : list byte) :
  open_wb_ok H (os_path_join output_dir (name up)) = true ->
  imencode L ("saliency_maps/" +:+ name up) (cvtColor_RGB2BGR o) = Some data ->
  imwrite_io_ok H ("saliency_maps/" +:+ name up) = false ->
  persist L H up o fs
  = Ok (o, <[os_path_join output_dir (name up) := getbuffer up]> fs).
Proof.
  intros Hopen Henc Hio. unfold persist, open_write, cv2_imwrite.
  rewrite Hopen. simpl. by rewrite Henc, Hio.
Qed.

Lemma persist_written (L : Libs) (H : Host) (up : UploadedFile)
    (o : grid px8) (fs : files) (data : list byte) :
  open_wb_ok H (os_path_join output_dir (name up)) = true ->
  imencode L ("saliency_maps/" +:+ name up) (cvtColor_RGB2BGR o) = Some data ->
  imwrite_io_ok H ("saliency_maps/" +:+ name up) = true ->
  persist L H up o fs
  = Ok (o, <["saliency_maps/" +:+ name up := data]>
             (<[os_path_join output_dir (name up) := getbuffer up]> fs)).
Proof.
  intros Hopen Henc Hio. unfold persist, open_write, cv2_imwrite.
  rewrite Hopen. simpl. by rewrite Henc, Hio.
Qed.

(** C4, as stated, fails: after a run on an empty disk there is one
    file, not two; it holds the encoded overlay and not the raw uploaded
    bytes, which the second write has replaced. *)
Lemma C4_one_file_is_left :
  let up := Concrete.upload "scan.png" 22 22 Byte.x64 in
  let run :=
    generate_saliency_map Concrete.libs Concrete.host_ok Concrete.ramp_model
      (Concrete.uniform 22 22 (Byte.x64, Byte.x64, Byte.x64))
      (Concrete.uniform 22 22 (0%Qc, 0%Qc, 0%Qc)) 0 (22, 22)%nat up ∅ in
  (fun r => size r.2) <$> run = Ok 1%nat /\
  (fun r => r.2 !! "saliency_maps/scan.png") <$> run
    = (fun r => imencode Concrete.libs "saliency_maps/scan.png"
                  (cvtColor_RGB2BGR r.1)) <$> run /\
  (fun r => bool_decide (r.2 !! "saliency_maps/scan.png" = Some (getbuffer up)))
    <$> run = Ok false.
Proof. cbv zeta. split; [vm_decide | split; vm_decide]. Qed.

(** C4 (amended): the engine writes twice to one path,
    [saliency_maps/<file name>]: first the raw uploaded bytes, then the
    encoded overlay, which replaces them.  After the run that one file
    holds the overlay, whatever it held before (last write wins), and
    no other file has changed. *)
Theorem C4_both_writes_hit_one_path (L : Libs) (H : Host) (model : Classifier)
    (img : grid px8) (img_array : grid pxf) (class_index : nat)
    (img_size : nat * nat) (uploaded_file : UploadedFile) (fs : files)
    (overlay : grid px8) (data : list byte) :
  let path := "saliency_maps/" +:+ name uploaded_file in
  saliency_overlay L model img img_array class_index img_size = Ok overlay ->
  starts_with_slash (name uploaded_file) = false ->
  open_wb_ok H path = true ->
  imwrite_io_ok H path = true ->
  imencode L path (cvtColor_RGB2BGR overlay) = Some data ->
  os_path_join output_dir (name uploaded_file) = path /\
  generate_saliency_map L H model img img_array class_index img_size
    uploaded_file fs = Ok (overlay, <[path := data]> fs).
Proof.
  intros path Ho Hrel Hopen Hio Henc.
  pose proof (os_path_join_relative _ Hrel) as Hpath. fold path in Hpath.
  split; [done|].
  rewrite generate_saliency_map_persist, Ho. simpl.
  rewrite (persist_written L H uploaded_file overlay fs data);
    rewrite ?Hpath; try done.
  by rewrite insert_insert_eq.
Qed.

(** C4 at a concrete input: an upload named scan.png, with a file of that name already in place. *)
Lemma C4_witness :
  let up := Concrete.upload "scan.png" 22 22 Byte.x64 in
  let img := Concrete.uniform 22 22 (Byte.x64, Byte.x64, Byte.x64) in
  let img_array := Concrete.uniform 22 22 (0%Qc, 0%Qc, 0%Qc) in
  exists overlay data,
    imencode Concrete.libs "saliency_maps/scan.png" (cvtColor_RGB2BGR overlay)
      = Some data /\
    os_path_join output_dir (name up) = "saliency_maps/scan.png" /\
    generate_saliency_map Concrete.libs Concrete.host_ok Concrete.ramp_model
      img img_array 0 (22, 22)%nat up
      {[ "saliency_maps/scan.png" := [Byte.x01] ]}
    = Ok (overlay, {[ "saliency_maps/scan.png" := data ]}).
Proof.
  cbv zeta.
  destruct (saliency_overlay_square Concrete.libs Concrete.ramp_model
              (Concrete.uniform 22 22 (Byte.x64, Byte.x64, Byte.x64))
              (Concrete.uniform 22 22 (0%Qc, 0%Qc, 0%Qc)) 0 22
              concrete_libs_ok ltac:(lia) (has_shape_replicate 22 22 _))
    as (overlay & Ho & _).
  pose proof (eq_refl : imencode Concrete.libs "saliency_maps/scan.png"
                          (cvtColor_RGB2BGR overlay) = Some _) as Henc.
  destruct (C4_both_writes_hit_one_path Concrete.libs Concrete.host_ok
              Concrete.ramp_model _ _ _ _
              (Concrete.upload "scan.png" 22 22 Byte.x64)
              {[ "saliency_maps/scan.png" := [Byte.x01] ]} overlay _
              Ho eq_refl eq_refl eq_refl Henc) as [Hpath Hrun].
  rewrite insert_singleton_eq in Hrun.
  eexists overlay, _. split; [exact Henc|]. split; [exact Hpath | exact Hrun].
Defined.

(** C9, as stated, fails: where the output directory cannot be written,
    the run ends in OSError at the first write; where OpenCV has no
    writer for the file name, it ends in cv2.error.  Neither run returns
    the overlay. *)
Lemma C9_write_failures_end_the_run :
  let img := Concrete.uniform 22 22 (Byte.x64, Byte.x64, Byte.x64) in
  let img_array := Concrete.uniform 22 22 (0%Qc, 0%Qc, 0%Qc) in
  generate_saliency_map Concrete.libs Concrete.host_read_only
    Concrete.ramp_model img img_array 0 (22, 22)%nat
    (Concrete.upload "scan.png" 22 22 Byte.x64) ∅ = Raise OSError /\
  generate_saliency_map Concrete.libs Concrete.host_ok
    Concrete.ramp_model img img_array 0 (22, 22)%nat
    (Concrete.upload "scan" 22 22 Byte.x64) ∅ = Raise cv2_error.
Proof. cbv zeta. split; vm_decide. Qed.

(** C9 (amended): the code handles no exception.  A failure of
    [cv2.imwrite] that it reports by returning False is ignored, and the
    overlay is returned; a failure raised by the first write (OSError)
    or by [cv2.imwrite] (no writer for the extension) ends the run
    without an overlay. *)
Theorem C9_only_a_false_from_imwrite_is_ignored (L : Libs) (H : Host)
    (model : Classifier) (img : grid px8) (img_array : grid pxf)
    (class_index : nat) (img_size : nat * nat) (uploaded_file : UploadedFile)
    (fs : files) (overlay : grid px8) :
  let img_path := os_path_join output_dir (name uploaded_file) in
  let saliency_map_path := "saliency_maps/" +:+ name uploaded_file in
  let run := generate_saliency_map L H model img img_array class_index img_size
               uploaded_file fs in
  saliency_overlay L model img img_array class_index img_size = Ok overlay ->
  (open_wb_ok H img_path = false -> run = Raise OSError) /\
  (open_wb_ok H img_path = true ->
   imencode L saliency_map_path (cvtColor_RGB2BGR overlay) = None ->
   run = Raise cv2_error) /\
  (open_wb_ok H img_path = true ->
   forall data,
     imencode L saliency_map_path (cvtColor_RGB2BGR overlay) = Some data ->
     imwrite_io_ok H saliency_map_path = false ->
     run = Ok (overlay, <[img_path := getbuffer uploaded_file]> fs)).
Proof.
  intros img_path saliency_map_path run Ho. subst run.
  rewrite generate_saliency_map_persist, Ho. simpl.
  split; [by apply persist_open_fails|].
  split; [by apply persist_no_encoder|].
  intros Hopen data Henc Hio. by apply (persist_imwrite_false _ _ _ _ _ data).
Qed.

(** C9 at a concrete input: a host on which Python can write and OpenCV cannot. *)
Lemma C9_witness :
  let up := Concrete.upload "scan.png" 22 22 Byte.x64 in
  let img := Concrete.uniform 22 22 (Byte.x64, Byte.x64, Byte.x64) in
  let img_array := Concrete.uniform 22 22 (0%Qc, 0%Qc, 0%Qc) in
  exists overlay,
    saliency_overlay Concrete.libs Concrete.ramp_model img img_array 0
      (22, 22)%nat = Ok overlay /\
    generate_saliency_map Concrete.libs Concrete.host_cv_fails
      Concrete.ramp_model img img_array 0 (22, 22)%nat up ∅
    = Ok (overlay, {[ "saliency_maps/scan.png" := getbuffer up ]}).
Proof.
  cbv zeta.
  destruct (saliency_overlay_square Concrete.libs Concrete.ramp_model
              (Concrete.uniform 22 22 (Byte.x64, Byte.x64, Byte.x64))
              (Concrete.uniform 22 22 (0%Qc, 0%Qc, 0%Qc)) 0 22
              concrete_libs_ok ltac:(lia) (has_shape_replicate 22 22 _))
    as (overlay & Ho & _).
  exists overlay. split; [exact Ho|].
  destruct (C9_only_a_false_from_imwrite_is_ignored Concrete.libs
              Concrete.host_cv_fails _ _ _ _ _
              (Concrete.upload "scan.png" 22 22 Byte.x64) ∅ overlay Ho)
    as (_ & _ & Hfalse).
  exact (Hfalse eq_refl _ eq_refl eq_refl).
Defined.

(** ** The size of the overlay *)

(** [load_img] returns an image of the target size, whatever the size of
    the decoded upload. *)
Lemma load_img_shape (L : Libs) (data : list byte) (decoded : grid px8)
    (rows cols th tw : nat) :
  LibsOk L -> PIL_open L data = Ok decoded -> has_shape rows cols decoded ->
  exists img, load_img L data (th, tw) = Ok img /\ has_shape th tw img.
Proof.
  intros HL Hopen Hdec. unfold load_img. rewrite Hopen. simpl.
  case_decide as Hsize.
  - exists decoded. split; [done|].
    injection Hsize as Hw Hh. rewrite <- Hw, <- Hh. by eapply has_shape_own.
  - eexists. split; [done|]. apply (PIL_resize_shape L HL).
Qed.




(** * Further properties of the engine *)

(** ** The mask on square maps *)

(** X1: on a square map of side at least 20 every selected pixel lies in
    rows and columns 10 to [s - 10]: a border of ten pixels at the top
    and the left, and of at least nine at the bottom and the right, is
    always masked out. *)
Theorem mask_keeps_a_margin (s y x : nat) :
  (20 <= s)%nat -> (y < s)%nat -> (x < s)%nat ->
  at2 (circular_mask (s, s)) y x = Some true ->
  (10 <= y <= s - 10)%nat /\ (10 <= x <= s - 10)%nat.
Proof.
  intros Hs Hy Hx Hat.
  rewrite circular_mask_at in Hat by done. injection Hat as Hat.
  unfold mask_at, center, radius in Hat. cbn [fst snd] in Hat.
  apply Z.leb_le in Hat.
  assert (Hc : Z.of_nat s / 2 = Z.of_nat (s / 2)) by (by rewrite Nat2Z.inj_div).
  assert (Hb : (10 <= s / 2 /\ 2 * (s / 2) <= s)%nat).
  { pose proof (Nat.div_mod_eq s 2). pose proof (Nat.mod_upper_bound s 2). lia. }
  rewrite Hc, Z.min_id in Hat.
  revert Hat Hb. generalize (s / 2)%nat. intros c Hat [Hc10 Hc2].
  assert (Hxc : (Z.of_nat x - Z.of_nat c) ^ 2 <= (Z.of_nat c - 10) ^ 2) by nia.
  assert (Hyc : (Z.of_nat y - Z.of_nat c) ^ 2 <= (Z.of_nat c - 10) ^ 2) by nia.
  assert (Habs : forall a r : Z, 0 <= r -> a ^ 2 <= r ^ 2 -> - r <= a <= r)
    by (intros a r Hr Ha; nia).
  apply Habs in Hxc; [|lia]. apply Habs in Hyc; [|lia]. lia.
Qed.

(** X1 at the centre pixel of a 224 x 224 map. *)
Lemma mask_keeps_a_margin_witness :
  (10 <= 112 <= 224 - 10)%nat /\ (10 <= 112 <= 224 - 10)%nat.
Proof.
  apply (mask_keeps_a_margin 224 112 112); [lia | lia | lia |].
  vm_compute. reflexivity.
Defined.

(** X2: the radius is negative below side 20 and enters the test only
    through its square, so the disc grows as the map shrinks: a square
    map of side 1 to 9 is selected entirely. *)
Theorem tiny_maps_are_selected_entirely (s : nat) :
  (0 < s <= 9)%nat ->
  circular_mask (s, s) = replicate s (replicate s true).
Proof.
  intros [Hlo Hhi].
  do 10 (destruct s as [|s]; [first [lia | by vm_compute] |]). lia.
Qed.

(** X2 at side 9, where the radius is -6. *)
Lemma tiny_maps_are_selected_entirely_witness :
  radius (center (9, 9)%nat) = -6 /\
  circular_mask (9, 9)%nat = replicate 9 (replicate 9 true).
Proof.
  split; [reflexivity|].
  apply (tiny_maps_are_selected_entirely 9). lia.
Defined.

(** ** Minimum, maximum and the normalisation *)

Lemma foldr_Qc_max_elem (v : Qc) (l : list Qc) : foldr Qc_max v l ∈ l ++ [v].
Proof.
  induction l as [|a l IH]; simpl; [left|].
  unfold Qc_max at 1. case_decide; [by right | left].
Qed.

Lemma foldr_Qc_min_elem (v : Qc) (l : list Qc) : foldr Qc_min v l ∈ l ++ [v].
Proof.
  induction l as [|a l IH]; simpl; [left|].
  unfold Qc_min at 1. case_decide; [left | by right].
Qed.

Lemma np_max_elem (l : list Qc) (mx : Qc) : np_max l = Ok mx -> mx ∈ l.
Proof.
  destruct l as [|v l]; [done|]. intros [= <-].
  pose proof (foldr_Qc_max_elem v l) as Hin.
  apply elem_of_app in Hin as [Hin|Hin%list_elem_of_singleton]; [by right|].
  rewrite Hin. left.
Qed.

Lemma np_min_elem (l : list Qc) (mn : Qc) : np_min l = Ok mn -> mn ∈ l.
Proof.
  destruct l as [|v l]; [done|]. intros [= <-].
  pose proof (foldr_Qc_min_elem v l) as Hin.
  apply elem_of_app in Hin as [Hin|Hin%list_elem_of_singleton]; [by right|].
  rewrite Hin. left.
Qed.

(** The maximum is the element that bounds all others. *)
Lemma np_max_unique (l : list Qc) (m : Qc) :
  m ∈ l -> (forall x, x ∈ l -> (x <= m)%Qc) -> np_max l = Ok m.
Proof.
  intros Hin Hub.
  destruct (np_max_is_Ok l) as [mx Hmx]; [by intros -> ; apply not_elem_of_nil in Hin|].
  rewrite Hmx. f_equal. apply Qcle_antisym.
  - apply Hub. by eapply np_max_elem.
  - by eapply np_max_ge.
Qed.

Lemma np_min_unique (l : list Qc) (m : Qc) :
  m ∈ l -> (forall x, x ∈ l -> (m <= x)%Qc) -> np_min l = Ok m.
Proof.
  intros Hin Hlb.
  destruct (np_min_is_Ok l) as [mn Hmn]; [by intros -> ; apply not_elem_of_nil in Hin|].
  rewrite Hmn. f_equal. apply Qcle_antisym.
  - by eapply np_min_le.
  - apply Hlb. by eapply np_min_elem.
Qed.

Lemma rescale_min (mn mx : Qc) : (mn < mx)%Qc -> rescale mn mx mn = 0%Qc.
Proof. intros Hlt. unfold rescale. field. qc_lra. Qed.

Lemma rescale_max (mn mx : Qc) : (mn < mx)%Qc -> rescale mn mx mx = 1%Qc.
Proof. intros Hlt. unfold rescale. field. qc_lra. Qed.

Lemma rescale_unit (v : Qc) : rescale 0 1 v = v.
Proof. unfold rescale. field. qc_lra. Qed.

Lemma rescale_mono (mn mx v w : Qc) :
  (mn < mx)%Qc -> (v <= w)%Qc -> (rescale mn mx v <= rescale mn mx w)%Qc.
Proof.
  intros Hlt Hle. unfold rescale, Qcdiv.
  assert (Hinv : (0 < / (mx - mn))%Qc) by (apply Qcinv_pos; qc_lra).
  rewrite <- (Qcmult_le_mono_pos_r _ _ _ Hinv). qc_lra.
Qed.

Lemma rescale_list_min (l : list Qc) (mn mx : Qc) :
  np_max l = Ok mx -> np_min l = Ok mn -> (mn < mx)%Qc ->
  np_min (rescale mn mx <$> l) = Ok 0%Qc.
Proof.
  intros Hmx Hmn Hlt. apply np_min_unique.
  - rewrite <- (rescale_min mn mx Hlt).
    apply list_elem_of_fmap_2. by eapply np_min_elem.
  - intros x (v & -> & Hv)%list_elem_of_fmap.
    apply rescale_range; [done | by eapply np_min_le | by eapply np_max_ge].
Qed.

Lemma rescale_list_max (l : list Qc) (mn mx : Qc) :
  np_max l = Ok mx -> np_min l = Ok mn -> (mn < mx)%Qc ->
  np_max (rescale mn mx <$> l) = Ok 1%Qc.
Proof.
  intros Hmx Hmn Hlt. apply np_max_unique.
  - rewrite <- (rescale_max mn mx Hlt).
    apply list_elem_of_fmap_2. by eapply np_max_elem.
  - intros x (v & -> & Hv)%list_elem_of_fmap.
    apply rescale_range; [done | by eapply np_min_le | by eapply np_max_ge].
Qed.

(** X3: when the brain area is not flat, the normalisation stretches it
    over the whole of [0, 1]: afterwards its minimum is exactly 0 and
    its maximum exactly 1, and the number of values is unchanged. *)
Theorem normalized_values_reach_zero_and_one (l : list Qc) (mn mx : Qc) :
  np_max l = Ok mx -> np_min l = Ok mn -> (mn < mx)%Qc ->
  exists l',
    normalize_values l = Ok l' /\ length l' = length l /\
    np_min l' = Ok 0%Qc /\ np_max l' = Ok 1%Qc.
Proof.
  intros Hmx Hmn Hlt. exists (rescale mn mx <$> l).
  split; [by apply normalize_values_spread|].
  split; [by rewrite length_fmap|].
  split; [by apply rescale_list_min | by apply rescale_list_max].
Qed.

(** X3 on the values 2, 5, 3. *)
Lemma normalized_values_reach_zero_and_one_witness :
  exists l',
    normalize_values [Qc_of_Z 2; Qc_of_Z 5; Qc_of_Z 3] = Ok l' /\
    length l' = 3%nat /\ np_min l' = Ok 0%Qc /\ np_max l' = Ok 1%Qc.
Proof.
  apply (normalized_values_reach_zero_and_one
           [Qc_of_Z 2; Qc_of_Z 5; Qc_of_Z 3] (Qc_of_Z 2) (Qc_of_Z 5)); vm_decide.
Defined.

(** X4: normalising twice is normalising once: whatever the first
    normalisation returns, a second one returns it unchanged. *)
Theorem normalize_values_idempotent (l l' : list Qc) :
  normalize_values l = Ok l' -> normalize_values l' = Ok l'.
Proof.
  intros Hn.
  assert (Hne : l <> []) by (by intros ->).
  destruct (np_max_is_Ok l Hne) as [mx Hmx].
  destruct (np_min_is_Ok l Hne) as [mn Hmn].
  destruct (decide (mn < mx)%Qc) as [Hlt|Hflat].
  - pose proof (rescale_list_min l mn mx Hmx Hmn Hlt) as Hmin.
    pose proof (rescale_list_max l mn mx Hmx Hmn Hlt) as Hmax.
    rewrite (normalize_values_spread _ _ _ Hmx Hmn Hlt) in Hn. injection Hn as Hl'.
    rewrite Hl' in Hmin, Hmax.
    rewrite (normalize_values_spread l' 0 1 Hmax Hmin) by qc_lra.
    f_equal. rewrite <- (list_fmap_id l') at 2.
    apply list_fmap_ext. intros i v _. apply rescale_unit.
  - rewrite (normalize_values_flat _ _ _ Hmx Hmn Hflat) in Hn. injection Hn as <-.
    by eapply normalize_values_flat.
Qed.

(** X4 on the values 2, 5, 3. *)
Lemma normalize_values_idempotent_witness :
  exists l',
    normalize_values [Qc_of_Z 2; Qc_of_Z 5; Qc_of_Z 3] = Ok l' /\
    normalize_values l' = Ok l'.
Proof.
  destruct (normalize_values [Qc_of_Z 2; Qc_of_Z 5; Qc_of_Z 3]) as [l'|e] eqn:Hn;
    [|exfalso; vm_compute in Hn; discriminate].
  exists l'. split; [reflexivity|].
  exact (normalize_values_idempotent _ _ Hn).
Defined.

(** X5: the normalisation never inverts the ranking of two pixels: a
    value that was not above another is not above it afterwards.
    (Subtracting the minimum and dividing by a positive range are both
    monotone, also when the results are rounded; the converse is left
    out, since rounding can make two distinct values equal.) *)
Theorem normalize_values_is_monotone (l l' : list Qc) (i j : nat) (v w v' w' : Qc) :
  normalize_values l = Ok l' ->
  l !! i = Some v -> l !! j = Some w ->
  l' !! i = Some v' -> l' !! j = Some w' ->
  (v <= w)%Qc -> (v' <= w')%Qc.
Proof.
  intros Hn Hv Hw Hv' Hw' Hle.
  assert (Hne : l <> []) by (by intros ->).
  destruct (np_max_is_Ok l Hne) as [mx Hmx].
  destruct (np_min_is_Ok l Hne) as [mn Hmn].
  destruct (decide (mn < mx)%Qc) as [Hlt|Hflat].
  - rewrite (normalize_values_spread _ _ _ Hmx Hmn Hlt) in Hn. injection Hn as <-.
    rewrite list_lookup_fmap, Hv in Hv'. rewrite list_lookup_fmap, Hw in Hw'.
    injection Hv' as <-. injection Hw' as <-. by apply rescale_mono.
  - rewrite (normalize_values_flat _ _ _ Hmx Hmn Hflat) in Hn. injection Hn as <-.
    rewrite Hv in Hv'. rewrite Hw in Hw'. by injection Hv' as <-; injection Hw' as <-.
Qed.

(** X5 on the values 2, 5, 3, at the first and the third position. *)
Lemma normalize_values_is_monotone_witness :
  (0 <= Q2Qc (1 # 3))%Qc.
Proof.
  apply (normalize_values_is_monotone
           [Qc_of_Z 2; Qc_of_Z 5; Qc_of_Z 3] [0%Qc; 1%Qc; Q2Qc (1 # 3)] 0 2
           (Qc_of_Z 2) (Qc_of_Z 3));
    first [reflexivity | vm_decide].
Defined.

(** ** The threshold *)

(** The 80th percentile lies on the segment between two of the values,
    the lower one first. *)
Lemma percentile_is_lerp (a : list Qc) (thr : Qc) :
  np_percentile a 80 = Ok thr ->
  exists lo hi t,
    lo ∈ a /\ hi ∈ a /\ (lo <= hi)%Qc /\ (0 <= t)%Qc /\ (t <= 1)%Qc /\
    thr = (lo + (hi - lo) * t)%Qc.
Proof.
  intros Hp.
  assert (Hne : a <> []) by (by intros ->).
  rewrite np_percentile_80 in Hp by done. cbv zeta in Hp. injection Hp as Hthr.
  pose proof (merge_sort_Permutation Qcle a) as Hperm.
  pose proof (merge_sort_length a) as Hlen.
  assert (Hs : StronglySorted Qcle (merge_sort Qcle a))
    by (apply StronglySorted_merge_sort; apply _).
  assert (Hn : (0 < length a)%nat) by (destruct a; simpl; [done | lia]).
  pose proof (percentile_index_lt _ Hn) as Hk.
  assert (Hin : forall x, x ∈ merge_sort Qcle a -> x ∈ a)
    by (intros x Hx; by rewrite Hperm in Hx).
  revert Hthr Hk Hlen Hs Hin.
  generalize (merge_sort Qcle a) (Z.to_nat (4 * (Z.of_nat (length a) - 1) / 5)).
  intros s k Hthr Hk Hlen Hs Hin.
  pose proof (Z.mod_pos_bound (4 * (Z.of_nat (length a) - 1)) 5 ltac:(lia)) as Hr.
  revert Hthr Hr. generalize ((4 * (Z.of_nat (length a) - 1)) mod 5).
  intros r Hthr Hr.
  destruct (lookup_lt_is_Some_2 s k) as [lo Hlo]; [lia|].
  destruct (lookup_lt_is_Some_2 s (Nat.min (k + 1) (length a - 1))) as [hi Hhi]; [lia|].
  rewrite (nth_lookup_Some _ _ _ _ Hlo), (nth_lookup_Some _ _ _ _ Hhi) in Hthr.
  exists lo, hi, (Q2Qc (r # 5)).
  split; [by eapply Hin, list_elem_of_lookup_2|].
  split; [by eapply Hin, list_elem_of_lookup_2|].
  split.
  { destruct (decide (k = Nat.min (k + 1) (length a - 1))) as [Heq|Hneq].
    - rewrite <- Heq, Hlo in Hhi. injection Hhi as <-. apply Qcle_refl.
    - eapply (StronglySorted_lookup_lt Qcle s k); [done | done | done | lia]. }
  split; [qc_to_q; unfold Qle; simpl; lia|].
  split; [qc_to_q; unfold Qle; simpl; lia | done].
Qed.

Lemma lerp_between (lo hi t mn mx : Qc) :
  (mn <= lo)%Qc -> (hi <= mx)%Qc -> (lo <= hi)%Qc -> (0 <= t)%Qc -> (t <= 1)%Qc ->
  (mn <= lo + (hi - lo) * t)%Qc /\ (lo + (hi - lo) * t <= mx)%Qc.
Proof. intros Hlo Hhi Hlohi Ht0 Ht1. split; qc_nra. Qed.

(** X6: the 80th percentile of a non-empty selection lies between its
    minimum and its maximum. *)
Theorem percentile_between_min_and_max (a : list Qc) (thr mn mx : Qc) :
  np_percentile a 80 = Ok thr -> np_min a = Ok mn -> np_max a = Ok mx ->
  (mn <= thr)%Qc /\ (thr <= mx)%Qc.
Proof.
  intros Hp Hmn Hmx.
  destruct (percentile_is_lerp a thr Hp) as (lo & hi & t & Hlo & Hhi & Hlohi & Ht0 & Ht1 & ->).
  apply lerp_between; try done.
  - by eapply np_min_le.
  - by eapply np_max_ge.
Qed.

(** X6 on the values 2, 5, 3, whose 80th percentile is 21/5. *)
Lemma percentile_between_min_and_max_witness :
  (Qc_of_Z 2 <= Q2Qc (21 # 5))%Qc /\ (Q2Qc (21 # 5) <= Qc_of_Z 5)%Qc.
Proof.
  apply (percentile_between_min_and_max [Qc_of_Z 2; Qc_of_Z 5; Qc_of_Z 3]);
    vm_decide.
Defined.

(** ** The sharpened map, pixel by pixel *)

Lemma circular_mask_at_inv (h w y x : nat) (b : bool) :
  at2 (circular_mask (h, w)) y x = Some b -> (y < h)%nat /\ (x < w)%nat.
Proof.
  intros Hat.
  by destruct (at2_map_seq_inv (mask_at (h, w)) h w y x b Hat) as (_ & Hy & Hx).
Qed.

Lemma sharpen_empty (g : grid Qc) :
  select g (circular_mask (shape g)) = [] -> sharpen g = Raise ValueError.
Proof.
  intros Hnil. unfold sharpen, normalize_brain.
  by rewrite select_apply_mask, Hnil.
Qed.

(** X7: when the brain area is not flat, its strongest pixel survives
    the threshold: the sharpened map has maximum exactly 1 in the brain
    area, so the heat map is never blank there. *)
Theorem sharpen_keeps_the_strongest_pixel (h w : nat) (g : grid Qc) (mn mx : Qc) :
  has_shape h w g ->
  np_max (select g (circular_mask (shape g))) = Ok mx ->
  np_min (select g (circular_mask (shape g))) = Ok mn ->
  (mn < mx)%Qc ->
  exists S,
    sharpen g = Ok S /\ np_max (select S (circular_mask (shape g))) = Ok 1%Qc.
Proof.
  intros Hg Hmx Hmn Hlt.
  destruct (sharpen_spread h w g mn mx Hg Hmx Hmn Hlt) as (thr & Hthr & _ & HS).
  eexists. split; [exact HS|].
  unfold zero_below. rewrite select_fmap.
  rewrite (select_map_if (rescale mn mx) (fun _ => 0%Qc)).
  pose proof (rescale_list_min _ _ _ Hmx Hmn Hlt) as Hmin'.
  pose proof (rescale_list_max _ _ _ Hmx Hmn Hlt) as Hmax'.
  assert (Hthr1 : (thr <= 1)%Qc).
  { destruct (percentile_is_lerp _ thr Hthr)
      as (lo & hi & t & Hlo & Hhi & Hlohi & Ht0 & Ht1 & ->).
    apply (lerp_between lo hi t 0 1); try done.
    - by eapply np_min_le.
    - by eapply np_max_ge. }
  apply np_max_unique.
  - apply list_elem_of_fmap. exists 1%Qc. split; [|by eapply np_max_elem].
    rewrite decide_False; [done | by apply Qcle_not_lt].
  - intros x (v & -> & Hv)%list_elem_of_fmap.
    case_decide; [qc_lra | by eapply np_max_ge].
Qed.

(** X7 on the ramp gradient of a 22 x 22 map. *)
Lemma sharpen_keeps_the_strongest_pixel_witness :
  let g := gradient_map Concrete.libs Concrete.ramp_model
             (Concrete.uniform 22 22 (0%Qc, 0%Qc, 0%Qc)) 0 (22, 22)%nat in
  exists S,
    sharpen g = Ok S /\ np_max (select S (circular_mask (shape g))) = Ok 1%Qc.
Proof.
  cbv zeta.
  apply (sharpen_keeps_the_strongest_pixel 22 22 _ (Qc_of_Z 231) (Qc_of_Z 275));
    vm_decide.
Defined.

(** X8: the sharpened map has the shape of the gradient map and is zero
    at every pixel outside the circle. *)
Theorem sharpen_is_zero_outside_the_mask (h w : nat) (g S : grid Qc) :
  has_shape h w g -> sharpen g = Ok S ->
  has_shape h w S /\
  forall y x, at2 (circular_mask (shape g)) y x = Some false ->
              at2 S y x = Some 0%Qc.
Proof.
  intros Hg HS.
  assert (Hne : select g (circular_mask (shape g)) <> []).
  { intros Hnil. by rewrite (sharpen_empty g Hnil) in HS. }
  pose proof (shape_of_selected h w g _ Hg Hne) as Hshape.
  pose proof (circular_mask_shape h w) as Hm.
  destruct (np_max_is_Ok _ Hne) as [mx Hmx].
  destruct (np_min_is_Ok _ Hne) as [mn Hmn].
  assert (Hout : forall (k : Qc -> bool -> Qc) (f : Qc -> Qc) y x,
            (forall v, f (k v false) = 0%Qc) ->
            at2 (circular_mask (h, w)) y x = Some false ->
            at2 (map (map f) (zip_with (zip_with k) g (circular_mask (h, w)))) y x
            = Some 0%Qc).
  { intros k f y x Hk Hat.
    destruct (circular_mask_at_inv h w y x _ Hat) as [Hy Hx].
    destruct (at2_is_Some h w g y x Hg Hy Hx) as [v Hv].
    rewrite at2_map, at2_zip_with, Hv, Hat. simpl. by rewrite Hk. }
  destruct (decide (mn < mx)%Qc) as [Hlt|Hflat].
  - destruct (sharpen_spread h w g mn mx Hg Hmx Hmn Hlt) as (thr & _ & _ & HS').
    rewrite HS' in HS. injection HS as <-. rewrite Hshape in *. split.
    + unfold zero_below. by apply has_shape_map, has_shape_zip_with.
    + intros y x Hat. unfold zero_below. apply Hout; [|done].
      intros _. by case_decide.
  - rewrite (sharpen_flat h w g mn mx Hg Hmx Hmn Hflat) in HS. injection HS as <-.
    unfold masked_map. rewrite Hshape in *. split.
    + by apply apply_mask_shape.
    + intros y x Hat. unfold apply_mask.
      destruct (circular_mask_at_inv h w y x _ Hat) as [Hy Hx].
      destruct (at2_is_Some h w g y x Hg Hy Hx) as [v Hv].
      by rewrite at2_zip_with, Hv, Hat.
Qed.

(** X8 on the ramp gradient of a 22 x 22 map, at the top-left corner. *)
Lemma sharpen_is_zero_outside_the_mask_witness :
  let g := gradient_map Concrete.libs Concrete.ramp_model
             (Concrete.uniform 22 22 (0%Qc, 0%Qc, 0%Qc)) 0 (22, 22)%nat in
  exists S, sharpen g = Ok S /\ has_shape 22 22 S /\ at2 S 0 0 = Some 0%Qc.
Proof.
  cbv zeta.
  assert (Hg : has_shape 22 22
                 (gradient_map Concrete.libs Concrete.ramp_model
                    (Concrete.uniform 22 22 (0%Qc, 0%Qc, 0%Qc)) 0 (22, 22)%nat))
    by vm_decide.
  destruct (sharpen _) as [S|e] eqn:HS; [|exfalso; vm_compute in HS; discriminate].
  exists S. split; [reflexivity|].
  destruct (sharpen_is_zero_outside_the_mask 22 22 _ S Hg HS) as [Hshape Hzero].
  split; [exact Hshape|]. apply Hzero. vm_compute. reflexivity.
Defined.

Lemma sharpen_Raise_inv (h w : nat) (g : grid Qc) (e : exn) :
  has_shape h w g -> sharpen g = Raise e ->
  e = ValueError /\ select g (circular_mask (shape g)) = [].
Proof.
  intros Hg He.
  destruct (decide (select g (circular_mask (shape g)) = [])) as [Hnil|Hne].
  - rewrite (sharpen_empty g Hnil) in He. by injection He as <-.
  - destruct (sharpen_is_Ok h w g Hg Hne) as [S HS]. by rewrite HS in He.
Qed.

(** X9: the sharpening fails exactly when the brain area is empty, and
    then with the ValueError of the maximum of an empty array; it never
    divides by zero. *)
Theorem sharpen_fails_only_on_an_empty_brain_area (h w : nat) (g : grid Qc) :
  has_shape h w g ->
  (select g (circular_mask (shape g)) = [] -> sharpen g = Raise ValueError) /\
  (forall e, sharpen g = Raise e ->
             e = ValueError /\ select g (circular_mask (shape g)) = []).
Proof.
  intros Hg. split; [apply sharpen_empty|].
  intros e He. by apply (sharpen_Raise_inv h w).
Qed.

(** X9 on a 22 x 100 map, whose brain area is empty. *)
Lemma sharpen_fails_only_on_an_empty_brain_area_witness :
  let g := Concrete.uniform 22 100 1%Qc in
  (select g (circular_mask (shape g)) = [] -> sharpen g = Raise ValueError) /\
  (forall e, sharpen g = Raise e ->
             e = ValueError /\ select g (circular_mask (shape g)) = []).
Proof.
  cbv zeta.
  apply (sharpen_fails_only_on_an_empty_brain_area 22 100). vm_decide.
Defined.

(** ** Sizes of lines 69-114 *)

(** X11: the size is read as (width, height).  With [img_size = (w, h)],
    an image of [h] rows and [w] columns and a brain area that is not
    empty, lines 69-114 return an overlay of [h] rows and [w] columns,
    square or not. *)
Theorem saliency_overlay_has_the_image_shape (L : Libs) (model : Classifier)
    (img : grid px8) (img_array : grid pxf) (class_index w h : nat) :
  LibsOk L -> has_shape h w img ->
  (let g := gradient_map L model img_array class_index (w, h) in
   select g (circular_mask (shape g)) <> []) ->
  exists overlay,
    saliency_overlay L model img img_array class_index (w, h) = Ok overlay /\
    has_shape h w overlay.
Proof.
  intros HL Himg Hne. cbv zeta in Hne. unfold saliency_overlay.
  pose proof (gradient_map_shape L model img_array class_index w h HL) as Hg.
  destruct (sharpen_is_Ok h w _ Hg Hne) as [S HS]. rewrite HS. simpl.
  apply superimpose_same_shape; [by apply heatmap_of_shape | by apply img_to_array_shape].
Qed.

(** X11 at width 23 and height 22. *)
Lemma saliency_overlay_has_the_image_shape_witness :
  exists overlay,
    saliency_overlay Concrete.libs Concrete.ramp_model
      (Concrete.uniform 22 23 (Byte.x64, Byte.x64, Byte.x64))
      (Concrete.uniform 22 23 (0%Qc, 0%Qc, 0%Qc)) 0 (23, 22)%nat = Ok overlay /\
    has_shape 22 23 overlay.
Proof.
  apply (saliency_overlay_has_the_image_shape Concrete.libs Concrete.ramp_model
           _ _ 0 23 22 concrete_libs_ok (has_shape_replicate 22 23 _)).
  cbv zeta. vm_decide.
Defined.

(** X12: passing the size as (rows, columns) fails.  With an image of
    [h] rows and [w] columns, [h] and [w] different and neither equal
    to 1, and [img_size = (h, w)], the heat map has [w] rows and [h]
    columns and the blend cannot broadcast: the run ends in
    ValueError. *)
Theorem size_given_as_rows_and_columns_fails (L : Libs) (model : Classifier)
    (img : grid px8) (img_array : grid pxf) (class_index h w : nat) :
  LibsOk L -> has_shape h w img ->
  (1 < h)%nat -> (1 < w)%nat -> h <> w ->
  saliency_overlay L model img img_array class_index (h, w) = Raise ValueError.
Proof.
  intros HL Himg Hh Hw Hne. unfold saliency_overlay.
  pose proof (gradient_map_shape L model img_array class_index h w HL) as Hg.
  destruct (sharpen _) as [S|e] eqn:HS; simpl.
  - unfold superimpose, np_broadcast2.
    rewrite (has_shape_shape w h (heatmap_of L S (h, w)))
      by (by apply heatmap_of_shape || lia).
    rewrite (has_shape_shape h w (img_to_array img))
      by (by apply img_to_array_shape || lia).
    cbn [fst snd]. unfold broadcast_dim.
    by rewrite !decide_False by lia.
  - f_equal. by destruct (sharpen_Raise_inv w h _ _ Hg HS).
Qed.

(** X12 on an image of 22 rows and 23 columns. *)
Lemma size_given_as_rows_and_columns_fails_witness :
  saliency_overlay Concrete.libs Concrete.ramp_model
    (Concrete.uniform 22 23 (Byte.x64, Byte.x64, Byte.x64))
    (Concrete.uniform 22 23 (0%Qc, 0%Qc, 0%Qc)) 0 (22, 23)%nat
  = Raise ValueError.
Proof.
  apply (size_given_as_rows_and_columns_fails Concrete.libs Concrete.ramp_model
           _ _ 0 22 23 concrete_libs_ok (has_shape_replicate 22 23 _)); lia.
Defined.

(** ** The files a run touches *)

Lemma os_path_join_absolute (a file_name : string) :
  starts_with_slash file_name = true -> os_path_join a file_name = file_name.
Proof. intros Habs. unfold os_path_join. by rewrite Habs. Qed.

Lemma absolute_name_is_not_under_output_dir (file_name : string) :
  starts_with_slash file_name = true ->
  file_name <> "saliency_maps/" +:+ file_name.
Proof.
  destruct file_name as [|c rest]; [done|]. simpl.
  case_decide as Hc; [|done]. subst c. intros _ Heq. discriminate Heq.
Qed.

(** X13: for a file name that is an absolute path, [os.path.join] drops
    the output directory: the raw uploaded bytes are written to that
    absolute path itself, outside [saliency_maps], and the overlay to
    [saliency_maps/] followed by the name; the run leaves two files. *)
Theorem absolute_name_writes_outside_output_dir (L : Libs) (H : Host)
    (model : Classifier) (img : grid px8) (img_array : grid pxf)
    (class_index : nat) (img_size : nat * nat) (uploaded_file : UploadedFile)
    (fs : files) (overlay : grid px8) (data : list byte) :
  let path := "saliency_maps/" +:+ name uploaded_file in
  saliency_overlay L model img img_array class_index img_size = Ok overlay ->
  starts_with_slash (name uploaded_file) = true ->
  open_wb_ok H (name uploaded_file) = true ->
  imwrite_io_ok H path = true ->
  imencode L path (cvtColor_RGB2BGR overlay) = Some data ->
  os_path_join output_dir (name uploaded_file) = name uploaded_file /\
  name uploaded_file <> path /\
  generate_saliency_map L H model img img_array class_index img_size
    uploaded_file fs
  = Ok (overlay,
        <[path := data]> (<[name uploaded_file := getbuffer uploaded_file]> fs)).
Proof.
  intros path Ho Habs Hopen Hio Henc.
  pose proof (os_path_join_absolute output_dir _ Habs) as Hjoin.
  split; [done|]. split; [by apply absolute_name_is_not_under_output_dir|].
  rewrite generate_saliency_map_persist, Ho. simpl.
  rewrite (persist_written L H uploaded_file overlay fs data);
    rewrite ?Hjoin; done.
Qed.

(** X13 for an upload named [/tmp/scan.png], on an empty disk. *)
Lemma absolute_name_writes_outside_output_dir_witness :
  let up := Concrete.upload "/tmp/scan.png" 22 22 Byte.x64 in
  exists overlay data,
    generate_saliency_map Concrete.libs Concrete.host_ok Concrete.ramp_model
      (Concrete.uniform 22 22 (Byte.x64, Byte.x64, Byte.x64))
      (Concrete.uniform 22 22 (0%Qc, 0%Qc, 0%Qc)) 0 (22, 22)%nat up ∅
    = Ok (overlay,
          <["saliency_maps//tmp/scan.png" := data]>
            (<["/tmp/scan.png" := getbuffer up]> ∅)).
Proof.
  cbv zeta.
  destruct (saliency_overlay_square Concrete.libs Concrete.ramp_model
              (Concrete.uniform 22 22 (Byte.x64, Byte.x64, Byte.x64))
              (Concrete.uniform 22 22 (0%Qc, 0%Qc, 0%Qc)) 0 22
              concrete_libs_ok ltac:(lia) (has_shape_replicate 22 22 _))
    as (overlay & Ho & _).
  pose proof (eq_refl : imencode Concrete.libs "saliency_maps//tmp/scan.png"
                          (cvtColor_RGB2BGR overlay) = Some _) as Henc.
  destruct (absolute_name_writes_outside_output_dir Concrete.libs Concrete.host_ok
              Concrete.ramp_model _ _ _ _
              (Concrete.upload "/tmp/scan.png" 22 22 Byte.x64) ∅ overlay _
              Ho eq_refl eq_refl eq_refl Henc) as (_ & _ & Hrun).
  eexists overlay, _. exact Hrun.
Defined.

(** X14: a run that returns changes no file other than the two paths it
    writes, [os.path.join(output_dir, name)] and [saliency_maps/<name>];
    the first of them exists afterwards, and the array returned is the
    one lines 69-114 computed. *)
Theorem run_touches_only_its_two_paths (L : Libs) (H : Host) (model : Classifier)
    (img : grid px8) (img_array : grid pxf) (class_index : nat)
    (img_size : nat * nat) (uploaded_file : UploadedFile)
    (fs fs' : files) (overlay : grid px8) :
  generate_saliency_map L H model img img_array class_index img_size
    uploaded_file fs = Ok (overlay, fs') ->
  saliency_overlay L model img img_array class_index img_size = Ok overlay /\
  is_Some (fs' !! os_path_join output_dir (name uploaded_file)) /\
  forall p : string,
    p <> os_path_join output_dir (name uploaded_file) ->
    p <> "saliency_maps/" +:+ name uploaded_file ->
    fs' !! p = fs !! p.
Proof.
  rewrite generate_saliency_map_persist.
  destruct (saliency_overlay _ _ _ _ _ _) as [o|e]; [|done]. simpl.
  unfold persist, open_write, cv2_imwrite.
  destruct (open_wb_ok H _); [|done]. simpl.
  destruct (imencode L _ _) as [data|]; [|done].
  destruct (imwrite_io_ok H _); simpl; intros [= <- <-].
  - split; [done|]. split.
    + rewrite lookup_insert. case_decide; [done|].
      rewrite lookup_insert_eq. done.
    + intros p Hp1 Hp2. by rewrite !lookup_insert_ne.
  - split; [done|]. split.
    + rewrite lookup_insert_eq. done.
    + intros p Hp1 Hp2. by rewrite lookup_insert_ne.
Qed.

(** X14 on a disk that already holds another file. *)
Lemma run_touches_only_its_two_paths_witness :
  exists overlay fs',
    generate_saliency_map Concrete.libs Concrete.host_ok Concrete.ramp_model
      (Concrete.uniform 22 22 (Byte.x64, Byte.x64, Byte.x64))
      (Concrete.uniform 22 22 (0%Qc, 0%Qc, 0%Qc)) 0 (22, 22)%nat
      (Concrete.upload "scan.png" 22 22 Byte.x64)
      {[ "saliency_maps/other.png" := [Byte.x01] ]} = Ok (overlay, fs') /\
    fs' !! "saliency_maps/other.png" = Some [Byte.x01].
Proof.
  destruct (generate_saliency_map Concrete.libs Concrete.host_ok
              Concrete.ramp_model
              (Concrete.uniform 22 22 (Byte.x64, Byte.x64, Byte.x64))
              (Concrete.uniform 22 22 (0%Qc, 0%Qc, 0%Qc)) 0 (22, 22)%nat
              (Concrete.upload "scan.png" 22 22 Byte.x64)
              {[ "saliency_maps/other.png" := [Byte.x01] ]})
    as [[overlay fs']|e] eqn:Hrun; [|exfalso; vm_compute in Hrun; discriminate].
  exists overlay, fs'. split; [reflexivity|].
  destruct (run_touches_only_its_two_paths _ _ _ _ _ _ _ _ _ _ _ Hrun)
    as (_ & _ & Hframe).
  rewrite (Hframe "saliency_maps/other.png"); [reflexivity | done | done].
Defined.

(** ** The predicted label (lines 182-183) *)

Lemma np_argmax_from_spec (l : list Qc) (best : Qc) (best_i i : nat) :
  (best_i < i)%nat ->
  exists p,
    ((np_argmax_from best best_i i l = best_i /\ p = best) \/
     ((i <= np_argmax_from best best_i i l)%nat /\
      l !! (np_argmax_from best best_i i l - i)%nat = Some p)) /\
    (best <= p)%Qc /\
    (forall v, v ∈ l -> (v <= p)%Qc) /\
    (forall j q, l !! j = Some q ->
                 (i + j < np_argmax_from best best_i i l)%nat -> (q < p)%Qc) /\
    (np_argmax_from best best_i i l <> best_i -> (best < p)%Qc).
Proof.
  revert best best_i i. induction l as [|v l IH]; intros best best_i i Hlt; simpl.
  - exists best. split; [by left|]. split; [apply Qcle_refl|].
    split; [by intros v Hv%not_elem_of_nil|]. split; [done | done].
  - case_decide as Hbv.
    + destruct (IH v i (S i) ltac:(lia)) as (p & Hpos & Hvp & Hall & Hbefore & Hne).
      exists p. split; [right|].
      { destruct Hpos as [[-> ->]|[Hr Hp]].
        - split; [lia|]. by rewrite Nat.sub_diag.
        - split; [lia|].
          by replace (np_argmax_from v i (S i) l - i)%nat
            with (S (np_argmax_from v i (S i) l - S i)) by lia. }
      split; [apply Qclt_le_weak; by eapply Qclt_le_trans|].
      split.
      { intros x [->|Hx]%elem_of_cons; [done | by apply Hall]. }
      split.
      { intros [|j] q Hq Hj; simpl in Hq.
        - injection Hq as <-. apply Hne. lia.
        - apply (Hbefore j q Hq). lia. }
      intros _. by eapply Qclt_le_trans.
    + apply Qcnot_lt_le in Hbv.
      destruct (IH best best_i (S i) ltac:(lia)) as (p & Hpos & Hbp & Hall & Hbefore & Hne).
      exists p. split.
      { destruct Hpos as [[Hr ->]|[Hr Hp]]; [by left | right].
        split; [lia|].
        by replace (np_argmax_from best best_i (S i) l - i)%nat
          with (S (np_argmax_from best best_i (S i) l - S i)) by lia. }
      split; [done|]. split.
      { intros x [->|Hx]%elem_of_cons; [by eapply Qcle_trans | by apply Hall]. }
      split; [|done].
      intros [|j] q Hq Hj; simpl in Hq.
      * injection Hq as <-. eapply Qcle_lt_trans; [done|]. apply Hne. lia.
      * apply (Hbefore j q Hq). lia.
Qed.

(** X15: for a prediction of one to four scores the label lookup
    succeeds, no score is larger than the score of the chosen class,
    and every class listed before it has a strictly smaller score: ties
    go to the label that comes first. *)
Theorem predicted_label_is_the_most_probable (prediction : list Qc) :
  prediction <> [] -> (length prediction <= 4)%nat ->
  exists label p,
    labels !! np_argmax prediction = Some label /\
    prediction !! np_argmax prediction = Some p /\
    (forall q, q ∈ prediction -> (q <= p)%Qc) /\
    (forall j q, (j < np_argmax prediction)%nat ->
                 prediction !! j = Some q -> (q < p)%Qc).
Proof.
  intros Hne Hlen. destruct prediction as [|v l]; [done|]. clear Hne.
  unfold np_argmax.
  destruct (np_argmax_from_spec l v 0 1 ltac:(lia)) as (p & Hpos & Hvp & Hall & Hbefore & Hstrict).
  assert (Hp : (v :: l) !! np_argmax_from v 0 1 l = Some p).
  { destruct Hpos as [[-> ->]|[Hr Hp]]; [done|].
    by replace (np_argmax_from v 0 1 l) with (S (np_argmax_from v 0 1 l - 1)) by lia. }
  destruct (lookup_lt_is_Some_2 labels (np_argmax_from v 0 1 l)) as [label Hlabel].
  { apply lookup_lt_Some in Hp. simpl in *. lia. }
  exists label, p. split; [done|]. split; [done|]. split.
  - intros q [->|Hq]%elem_of_cons; [done | by apply Hall].
  - intros [|j] q Hj Hq; simpl in Hq.
    + injection Hq as <-. apply Hstrict. lia.
    + apply (Hbefore j q Hq). lia.
Qed.

(** X15 on a tie between the second and the fourth class. *)
Lemma predicted_label_is_the_most_probable_witness :
  let prediction := [Q2Qc (1 # 10); Q2Qc (4 # 10); Q2Qc (1 # 10); Q2Qc (4 # 10)] in
  np_argmax prediction = 1%nat /\
  exists label p,
    labels !! np_argmax prediction = Some label /\
    prediction !! np_argmax prediction = Some p /\
    (forall q, q ∈ prediction -> (q <= p)%Qc) /\
    (forall j q, (j < np_argmax prediction)%nat ->
                 prediction !! j = Some q -> (q < p)%Qc).
Proof.
  cbv zeta. split; [vm_decide|].
  apply predicted_label_is_the_most_probable; [done | simpl; lia].
Defined.

(** ** The input tensor (lines 178-179) *)

Lemma scaled_byte_in_unit_interval (b : byte) :
  (0 <= Qc_of_byte b / Qc_of_Z 255)%Qc /\ (Qc_of_byte b / Qc_of_Z 255 <= 1)%Qc.
Proof.
  destruct (Qc_of_byte_range b) as [Hlo Hhi].
  revert Hlo Hhi. generalize (Qc_of_byte b). intros q Hlo Hhi.
  unfold Qcdiv, Qcinv. qc_to_q. split.
  - apply Qle_shift_div_l; [reflexivity | lra].
  - apply Qle_shift_div_r; [reflexivity | lra].
Qed.



(** ** The page (lines 162-218) *)

(** X19: everything before the saliency engine is on the page whatever
    fails afterwards.  Once the upload is loaded and labelled, the
    predicted class is shown; and once the engine has returned, so is
    its overlay, also when the generative service then fails. *)
Theorem classification_stays_on_the_page (L : Libs) (S : Services) (H : Host)
    (xception cnn : Classifier) (uploaded_file : UploadedFile)
    (sel : selected_model) (user_query : string) (fs : files)
    (img : grid px8) (result : string) :
  let model := match sel with
               | Transfer_Learning_Xception => xception
               | Custom_CNN => cnn
               end in
  let prediction := predict model (preprocess img) in
  let page := display_tab_content_page L S H xception cnn (Some uploaded_file)
                sel user_query fs in
  load_img L (getbuffer uploaded_file) (img_size_of sel) = Ok img ->
  prediction <> [] ->
  labels !! np_argmax prediction = Some result ->
  st_write ("Predicted Class: " +:+ result) ∈ shown_of page /\
  forall overlay fs1,
    generate_saliency_map L H model img (preprocess img) (np_argmax prediction)
      (img_size_of sel) uploaded_file fs = Ok (overlay, fs1) ->
    st_image_array overlay "Saliency Map" ∈ shown_of page.
Proof.
  intros model prediction page Himg Hne Hlabel. subst page.
  unfold display_tab_content_page. rewrite Himg.
  fold model. fold prediction.
  destruct prediction as [|p0 ps] eqn:Hpred; [done|]. rewrite <- Hpred in *.
  rewrite Hlabel.
  destruct (generate_saliency_map _ _ _ _ _ _ _ _ _) as [[o fs1]|e].
  - split.
    + repeat case_match; simpl; repeat (rewrite elem_of_app || rewrite elem_of_cons); naive_solver.
    + intros overlay fs2 [= <- <-].
      repeat case_match; simpl; repeat (rewrite elem_of_app || rewrite elem_of_cons); naive_solver.
  - split; [|done]. simpl. repeat (rewrite elem_of_app || rewrite elem_of_cons). naive_solver.
Qed.

(** X19 for an upload of 299 x 299 and a generative service that is
    down. *)
Lemma classification_stays_on_the_page_witness :
  let up := Concrete.upload "scan.png" 299 299 Byte.x64 in
  let img := Concrete.uniform 299 299 (Byte.x64, Byte.x64, Byte.x64) in
  let m := Concrete.ramp_model in
  let page := display_tab_content_page Concrete.libs Concrete.services_down
                Concrete.host_ok m m (Some up) Transfer_Learning_Xception
                "where is the tumor?" ∅ in
  st_write "Predicted Class: Glioma" ∈ shown_of page /\
  forall overlay fs1,
    generate_saliency_map Concrete.libs Concrete.host_ok m img (preprocess img)
      (np_argmax (predict m (preprocess img)))
      (img_size_of Transfer_Learning_Xception) up ∅ = Ok (overlay, fs1) ->
    st_image_array overlay "Saliency Map" ∈ shown_of page.
Proof.
  cbv zeta.
  apply (classification_stays_on_the_page Concrete.libs Concrete.services_down
           Concrete.host_ok Concrete.ramp_model Concrete.ramp_model
           (Concrete.upload "scan.png" 299 299 Byte.x64)
           Transfer_Learning_Xception "where is the tumor?" ∅
           (Concrete.uniform 299 299 (Byte.x64, Byte.x64, Byte.x64)) "Glioma");
    [reflexivity | discriminate | reflexivity].
Defined.

Lemma np_argmax_lt (l : list Qc) : l <> [] -> (np_argmax l < length l)%nat.
Proof.
  destruct l as [|v l]; [done|]. intros _. unfold np_argmax.
  destruct (np_argmax_from_spec l v 0 1 ltac:(lia)) as (p & Hpos & _).
  destruct Hpos as [[-> _]|[Hr Hp]]; [simpl; lia|].
  apply lookup_lt_Some in Hp. simpl. lia.
Qed.

(** With a square size, an image of that size, a file name that is not
    an absolute path and a writable output directory, the engine
    returns, and the file at [saliency_maps/<name>] holds the encoded
    overlay or, when OpenCV could not write, the uploaded bytes. *)
Lemma engine_run_on_a_square_image (L : Libs) (H : Host) (model : Classifier)
    (img : grid px8) (img_array : grid pxf) (class_index s : nat)
    (uploaded_file : UploadedFile) (fs : files) :
  let path := "saliency_maps/" +:+ name uploaded_file in
  LibsOk L -> (0 < s)%nat -> has_shape s s img ->
  starts_with_slash (name uploaded_file) = false ->
  open_wb_ok H path = true ->
  (forall a, imencode L path a <> None) ->
  exists overlay data fs1,
    generate_saliency_map L H model img img_array class_index (s, s)
      uploaded_file fs = Ok (overlay, fs1) /\
    imencode L path (cvtColor_RGB2BGR overlay) = Some data /\
    fs1 !! path = Some (if imwrite_io_ok H path then data
                        else getbuffer uploaded_file).
Proof.
  intros path HL Hs Himg Hrel Hopen Hencoder.
  pose proof (os_path_join_relative _ Hrel) as Hjoin. fold path in Hjoin.
  destruct (saliency_overlay_square L model img img_array class_index s HL Hs Himg)
    as (overlay & Ho & _).
  destruct (imencode L path (cvtColor_RGB2BGR overlay)) as [data|] eqn:Henc;
    [|by destruct (Hencoder _ Henc)].
  exists overlay, data.
  rewrite generate_saliency_map_persist, Ho. simpl.
  destruct (imwrite_io_ok H path) eqn:Hio.
  - eexists. split; [|split; [done|]].
    + apply (persist_written L H uploaded_file overlay fs data);
        rewrite ?Hjoin; done.
    + by rewrite lookup_insert_eq.
  - eexists. split; [|split; [done|]].
    + apply (persist_imwrite_false L H uploaded_file overlay fs data);
        rewrite ?Hjoin; done.
    + by rewrite Hjoin, lookup_insert_eq.
Qed.

Lemma last_cons_Some {A} (a x : A) (l : list A) :
  last l = Some x -> last (a :: l) = Some x.
Proof. intros Hl. by rewrite last_cons, Hl. Qed.

Lemma last_app_Some {A} (x : A) (l k : list A) :
  last k = Some x -> last (l ++ k) = Some x.
Proof. intros Hk. by rewrite last_app, Hk. Qed.

(** The page once the classifier, the engine and the explanation have
    returned: 13 elements ending with the invitation to ask, and then
    the chat request if there is a question. *)
Lemma page_of_steps (L : Libs) (S : Services) (H : Host)
    (xception cnn : Classifier) (uploaded_file : UploadedFile)
    (sel : selected_model) (user_query : string) (fs fs1 : files)
    (img overlay : grid px8) (p0 : Qc) (ps : list Qc) (result explanation : string)
    (confidence : Qc) :
  let model := match sel with
               | Transfer_Learning_Xception => xception
               | Custom_CNN => cnn
               end in
  load_img L (getbuffer uploaded_file) (img_size_of sel) = Ok img ->
  predict model (preprocess img) = p0 :: ps ->
  length (p0 :: ps) = 4%nat ->
  labels !! np_argmax (p0 :: ps) = Some result ->
  generate_saliency_map L H model img (preprocess img) (np_argmax (p0 :: ps))
    (img_size_of sel) uploaded_file fs = Ok (overlay, fs1) ->
  (p0 :: ps) !! np_argmax (p0 :: ps) = Some confidence ->
  generate_explanation S fs1 ("saliency_maps/" +:+ name uploaded_file)
    result confidence = Return explanation ->
  exists shown,
    display_tab_content_page L S H xception cnn (Some uploaded_file) sel
      user_query fs
    = (if decide (user_query = EmptyString) then Rendered shown fs1
       else match generate_neurology_chat_response S "gemini-1.5-flash" img
                    user_query result confidence with
            | Throw e => Crashed shown e
            | Return response_text =>
                Rendered (shown ++ [st_write "### Model's Response:";
                                    st_write response_text]) fs1
            end) /\
    length shown = 13%nat /\
    last shown
    = Some (st_write "Ask questions about the MRI scan to the multimodal LLM.").
Proof.
  intros model Himg Hpred Hlen Hresult Hrun Hconf Hexp.
  unfold display_tab_content_page. rewrite Himg. fold model.
  rewrite Hpred, Hresult, Hrun, Hconf, Hexp.
  eexists. split; [reflexivity|]. split.
  - rewrite !length_app, length_zip_with, Hlen. reflexivity.
  - by apply last_app_Some.
Qed.

(** What a complete page needs from outside: with a decodable upload,
    four scores from the selected classifier, a file name that is not
    an absolute path, a writable output directory, an encoder for the
    name, a PIL that opens what was written and a generative service
    that answers, every step of the page returns. *)
Lemma page_steps_succeed (L : Libs) (S : Services) (H : Host)
    (xception cnn : Classifier) (uploaded_file : UploadedFile)
    (sel : selected_model) (fs : files) (decoded : grid px8) (rows cols : nat) :
  let model := match sel with
               | Transfer_Learning_Xception => xception
               | Custom_CNN => cnn
               end in
  let path := "saliency_maps/" +:+ name uploaded_file in
  LibsOk L ->
  PIL_open L (getbuffer uploaded_file) = Ok decoded ->
  has_shape rows cols decoded ->
  (forall t, length (predict model t) = 4%nat) ->
  starts_with_slash (name uploaded_file) = false ->
  open_wb_ok H path = true ->
  (forall a, imencode L path a <> None) ->
  (forall a data, imencode L path a = Some data ->
                  exists im, Image_open S data = Ok im) ->
  (exists im, Image_open S (getbuffer uploaded_file) = Ok im) ->
  (forall m p i, generate_content S m p i <> None) ->
  exists img p0 ps result overlay fs1 confidence explanation,
    load_img L (getbuffer uploaded_file) (img_size_of sel) = Ok img /\
    predict model (preprocess img) = p0 :: ps /\
    length (p0 :: ps) = 4%nat /\
    labels !! np_argmax (p0 :: ps) = Some result /\
    generate_saliency_map L H model img (preprocess img) (np_argmax (p0 :: ps))
      (img_size_of sel) uploaded_file fs = Ok (overlay, fs1) /\
    (p0 :: ps) !! np_argmax (p0 :: ps) = Some confidence /\
    generate_explanation S fs1 path result confidence = Return explanation /\
    is_Some (fs1 !! path) /\
    (forall user_query, exists answer,
       generate_neurology_chat_response S "gemini-1.5-flash" img user_query
         result confidence = Return answer).
Proof.
  intros model path HL Hopen Hdec Hfour Hrel Hwr Hencoder Hreadable Hupload Hanswer.
  subst path.
  assert (Hsize : img_size_of sel = ((img_size_of sel).1, (img_size_of sel).1))
    by (by destruct sel).
  assert (Hpos : (0 < (img_size_of sel).1)%nat) by (destruct sel; simpl; lia).
  revert Hsize Hpos. generalize ((img_size_of sel).1). intros s Hsize Hpos.
  destruct (load_img_shape L _ _ rows cols s s HL Hopen Hdec) as (img & Himg & Hshape).
  rewrite Hsize.
  pose proof (Hfour (preprocess img)) as Hlen.
  destruct (predict model (preprocess img)) as [|p0 ps] eqn:Hpred; [done|].
  pose proof (np_argmax_lt (p0 :: ps) ltac:(done)) as Hidx. rewrite Hlen in Hidx.
  destruct (lookup_lt_is_Some_2 labels (np_argmax (p0 :: ps)) Hidx) as [result Hresult].
  destruct (engine_run_on_a_square_image L H model img (preprocess img)
              (np_argmax (p0 :: ps)) s uploaded_file fs HL Hpos Hshape Hrel Hwr Hencoder)
    as (overlay & data & fs1 & Hrun & Henc & Hfile).
  destruct (lookup_lt_is_Some_2 (p0 :: ps) (np_argmax (p0 :: ps))) as [confidence Hconf];
    [by rewrite Hlen|].
  assert (Hexp : exists explanation,
             generate_explanation S fs1 ("saliency_maps/" +:+ name uploaded_file)
               result confidence = Return explanation).
  { unfold generate_explanation. rewrite Hfile.
    assert (Him : exists im,
               Image_open S (if imwrite_io_ok H ("saliency_maps/" +:+ name uploaded_file)
                             then data else getbuffer uploaded_file) = Ok im).
    { destruct (imwrite_io_ok H _); [by eapply Hreadable | done]. }
    destruct Him as [im ->]. unfold ask.
    destruct (generate_content S _ _ im) as [text|] eqn:Hgen; [by eexists|].
    by destruct (Hanswer _ _ _ Hgen). }
  destruct Hexp as [explanation Hexp].
  exists img, p0, ps, result, overlay, fs1, confidence, explanation.
  split; [done|]. split; [done|]. split; [done|]. split; [done|].
  split; [done|]. split; [done|]. split; [done|].
  split; [by rewrite Hfile|].
  intros user_query. unfold generate_neurology_chat_response, ask.
  destruct (generate_content S _ _ img) as [text|] eqn:Hgen; [by eexists|].
  by destruct (Hanswer _ _ _ Hgen).
Qed.

Lemma read_image_of_encoded (path : string) (a : grid px8) (data : list byte) :
  Concrete.encode path a = Some data ->
  exists im, Concrete.read_image data = Ok im.
Proof.
  unfold Concrete.encode. case_match; [|done]. intros [= <-].
  generalize (concat a ≫= fun p : px8 => [p.1.1; p.1.2; p.2]). intros rest.
  destruct rest as [|x1 [|x2 [|x3 [|x4 rest]]]]; by eexists.
Qed.

(** The page of a 512 x 512 upload with the Xception model and a
    question is rendered. *)
Lemma concrete_page_is_rendered :
  exists shown fs',
    display_tab_content_page Concrete.libs Concrete.services Concrete.host_ok
      Concrete.ramp_model Concrete.ramp_model
      (Some (Concrete.upload "scan.png" 512 512 Byte.x64))
      Transfer_Learning_Xception "where is the tumor?" ∅ = Rendered shown fs'.
Proof.
  destruct (page_steps_succeed Concrete.libs Concrete.services
              Concrete.host_ok Concrete.ramp_model Concrete.ramp_model
              (Concrete.upload "scan.png" 512 512 Byte.x64)
              Transfer_Learning_Xception ∅
              (replicate 512 (replicate 512 (Byte.x64, Byte.x64, Byte.x64))) 512 512
              concrete_libs_ok eq_refl (has_shape_replicate 512 512 _))
    as (img & p0 & ps & result & overlay & fs1 & confidence & explanation
        & Himg & Hpred & Hlen & Hresult & Hrun & Hconf & Hexp & _ & Hchat).
  - intros t. reflexivity.
  - reflexivity.
  - reflexivity.
  - intros a Hnone. discriminate Hnone.
  - intros a data. apply read_image_of_encoded.
  - eexists. reflexivity.
  - intros m p i Hnone. discriminate Hnone.
  - destruct (page_of_steps Concrete.libs Concrete.services Concrete.host_ok
                Concrete.ramp_model Concrete.ramp_model
                (Concrete.upload "scan.png" 512 512 Byte.x64)
                Transfer_Learning_Xception "where is the tumor?" ∅ fs1
                img overlay p0 ps result explanation confidence
                Himg Hpred Hlen Hresult Hrun Hconf Hexp) as (shown & -> & _).
    destruct (Hchat "where is the tumor?") as [answer ->].
    case_decide as Hq; [discriminate Hq|]. by eexists _, _.
Qed.



(** X21: the question is put to the generative model together with the
    loaded upload (the picture resized to the classifier's input size),
    not with the overlay, although the prompt speaks of a saliency map;
    its answer is the last element on the page.  Without a question no
    chat request is made and the page ends with the invitation to
    ask. *)
Theorem chat_is_asked_about_the_loaded_image (L : Libs) (S : Services) (H : Host)
    (xception cnn : Classifier) (uploaded_file : UploadedFile)
    (sel : selected_model) (user_query : string) (fs fs' : files)
    (shown : list st_event) :
  let model := match sel with
               | Transfer_Learning_Xception => xception
               | Custom_CNN => cnn
               end in
  display_tab_content_page L S H xception cnn (Some uploaded_file) sel
    user_query fs = Rendered shown fs' ->
  (user_query = EmptyString ->
   last shown
   = Some (st_write "Ask questions about the MRI scan to the multimodal LLM.")) /\
  (user_query <> EmptyString ->
   exists img result confidence answer,
     load_img L (getbuffer uploaded_file) (img_size_of sel) = Ok img /\
     labels !! np_argmax (predict model (preprocess img)) = Some result /\
     predict model (preprocess img) !! np_argmax (predict model (preprocess img))
       = Some confidence /\
     generate_neurology_chat_response S "gemini-1.5-flash" img user_query
       result confidence = Return answer /\
     last shown = Some (st_write answer)).
Proof.
  intros model. unfold display_tab_content_page. fold model.
  destruct (load_img L _ _) as [img|e]; [|done].
  destruct (predict model (preprocess img)) as [|p0 ps] eqn:Hpred; [done|].
  destruct (labels !! _) as [result|] eqn:Hresult; [|done].
  destruct (generate_saliency_map _ _ _ _ _ _ _ _ _) as [[overlay fs1]|e]; [|done].
  destruct ((p0 :: ps) !! _) as [confidence|] eqn:Hconf; [|done].
  destruct (generate_explanation _ _ _ _ _) as [explanation|e]; [|done].
  case_decide as Hq.
  - intros Hpage. injection Hpage as <- <-. split; [|done]. intros _.
    repeat apply last_cons_Some. by apply last_app_Some.
  - destruct (generate_neurology_chat_response _ _ _ _ _ _) as [answer|e] eqn:Hchat;
      [|done].
    intros Hpage. injection Hpage as <- <-. split; [done|]. intros _.
    exists img, result, confidence, answer. rewrite Hpred.
    split; [done|]. split; [done|]. split; [done|]. split; [done|].
    repeat apply last_cons_Some. by apply last_app_Some.
Qed.

(** X21 for a 512 x 512 upload, the Xception model and a question. *)
Lemma chat_is_asked_about_the_loaded_image_witness :
  let up := Concrete.upload "scan.png" 512 512 Byte.x64 in
  exists shown fs',
    display_tab_content_page Concrete.libs Concrete.services Concrete.host_ok
      Concrete.ramp_model Concrete.ramp_model (Some up)
      Transfer_Learning_Xception "where is the tumor?" ∅ = Rendered shown fs' /\
    exists img result confidence answer,
      load_img Concrete.libs (getbuffer up) (299, 299)%nat = Ok img /\
      labels !! np_argmax (predict Concrete.ramp_model (preprocess img)) = Some result /\
      predict Concrete.ramp_model (preprocess img)
        !! np_argmax (predict Concrete.ramp_model (preprocess img)) = Some confidence /\
      generate_neurology_chat_response Concrete.services "gemini-1.5-flash" img
        "where is the tumor?" result confidence = Return answer /\
      last shown = Some (st_write answer).
Proof.
  cbv zeta.
  destruct concrete_page_is_rendered as (shown & fs' & Hpage).
  exists shown, fs'. split; [exact Hpage|].
  apply (proj2 (chat_is_asked_about_the_loaded_image _ _ _ _ _ _ _ _ _ _ _ Hpage)).
  discriminate.
Defined.
